(** * dns300: device routing table and multi-upstream exchange engine

    A shallow embedding of the Go packages [internal/config],
    [internal/device], [internal/upstream] and [internal/server] of the
    dns300 forwarding proxy, and the properties of its specification
    that concern them.

    Go strings are [string]; slices that are only read are [list]s; the
    device table [map[string]*Device] is a [gmap string Device]; a
    nullable pointer or a nil-able [net.IP] is an [option].  Functions of
    the Go standard library and of [github.com/miekg/dns] that the code
    calls are taken as parameters. *)

From Stdlib Require Import ZArith String Ascii List Bool Lia.
From stdpp Require Import base option list gmap strings fin_maps.

Local Open Scope string_scope.
Local Open Scope list_scope.
Local Open Scope Z_scope.

(** ** Package [strings] of the Go standard library, the two functions used *)

Module strings.

(** [strings.HasPrefix(s, prefix)]. *)
Fixpoint HasPrefix (s pre : string) {struct pre} : bool :=
  match pre, s with
  | EmptyString, _ => true
  | String _ _, EmptyString => false
  | String c pre', String d s' => Ascii.eqb c d && HasPrefix s' pre'
  end.

(** [strings.Contains(s, substr)]: [substr] occurs somewhere in [s]. *)
Fixpoint Contains (s substr : string) : bool :=
  HasPrefix s substr ||
  match s with
  | EmptyString => false
  | String _ s' => Contains s' substr
  end.

End strings.

(** ** Package [config] (internal/config/config.go) *)

Module config.

Module Device.
(** [type Device struct]; [TLSVerify *bool] is a pointer "to handle
    default true": [None] is the absent setting. *)
Record t : Type := mk {
  Name : string;
  IPs : list string;
  Upstreams : list string;
  TLSVerify : option bool
}.
End Device.

(** [type Config struct]. *)
Record Config : Type := mkConfig {
  Upstreams : list string;
  Devices : list Device.t
}.

End config.

(** ** Package [device] (internal/device) *)

Module device.

(** [type Device struct]: the policy of one device. *)
Record Device : Type := mkDevice {
  Name : string;
  Upstreams : list string;
  TLSVerify : bool
}.

(** [type Manager struct { ipMap map[string]*Device }]. *)
Record Manager : Type := mkManager {
  ipMap : gmap string Device
}.

Section WithNet.

(** [net.IP], [net.ParseIP] (nil on failure) and [net.IP.String]. *)
Context {IP : Type}.
Variable ParseIP : string -> option IP.
Variable IPString : IP -> string.

(** Lines 91-94 of [NewManager]: the default-true flag of one device. *)
Definition tlsVerify_of (d : config.Device.t) : bool :=
  match config.Device.TLSVerify d with
  | Some b => b
  | None => true
  end.

(** Lines 96-100: the [Device] built for one configured device. *)
Definition dev_of (d : config.Device.t) : Device :=
  {| Name := config.Device.Name d;
     Upstreams := config.Device.Upstreams d;
     TLSVerify := tlsVerify_of d |}.

(** Lines 102-107: the inner loop over [d.IPs]. *)
Definition add_ips (dev : Device) (ips : list string)
    (m : gmap string Device) : gmap string Device :=
  foldl (fun m ipStr =>
           match ParseIP ipStr with
           | Some ip => <[IPString ip := dev]> m
           | None => m
           end) m ips.

(** Lines 90-108: the outer loop over [cfg.Devices]. *)
Definition add_devices (ds : list config.Device.t)
    (m : gmap string Device) : gmap string Device :=
  foldl (fun m d => add_ips (dev_of d) (config.Device.IPs d) m) m ds.

Definition NewManager (cfg : config.Config) : Manager :=
  {| ipMap := add_devices (config.Devices cfg) ∅ |}.

(** [func (m *Manager) Get(ip net.IP) *Device]; a nil [ip] is [None]. *)
Definition Get (m : Manager) (ip : option IP) : option Device :=
  match ip with
  | None => None
  | Some ip => ipMap m !! IPString ip
  end.

(** A configured device declares the canonical string [key] when one of
    its IP strings parses to an address whose canonical form is [key]. *)
Definition declares (key : string) (d : config.Device.t) : bool :=
  existsb (fun ipStr =>
             match ParseIP ipStr with
             | Some ip => bool_decide (IPString ip = key)
             | None => false
             end) (config.Device.IPs d).

End WithNet.

End device.

(** ** Package [dns] of github.com/miekg/dns: the message header *)

Module dns.

(** [type Msg struct]: the header fields and the sections the proxy
    touches; resource records are kept as opaque strings. *)
Record Msg : Type := mkMsg {
  Id : Z;
  Response : bool;
  Opcode : Z;
  RecursionDesired : bool;
  CheckingDisabled : bool;
  Rcode : Z;
  Question : list string;
  Answer : list string
}.

Definition OpcodeQuery : Z := 0.
Definition RcodeSuccess : Z := 0.
Definition RcodeServerFailure : Z := 2.

(** [new(dns.Msg)]: the zero value. *)
Definition new_Msg : Msg :=
  {| Id := 0; Response := false; Opcode := 0; RecursionDesired := false;
     CheckingDisabled := false; Rcode := 0; Question := []; Answer := [] |}.

(** Modelled from the spec: the method [SetReply] of [Msg] belongs to
    the miekg/dns dependency, whose source is not part of the repository.
    The specification describes the reply built from a query as "a
    response carrying the original transaction identifier"; the other
    fields follow the documented behaviour of the library: the reply
    takes the opcode of the request, copies the RD and CD bits of a
    standard query, has status success and keeps the first question. *)
Definition SetReply (m request : Msg) : Msg :=
  {| Id := Id request;
     Response := true;
     Opcode := Opcode request;
     RecursionDesired :=
       if Opcode request =? OpcodeQuery then RecursionDesired request
       else RecursionDesired m;
     CheckingDisabled :=
       if Opcode request =? OpcodeQuery then CheckingDisabled request
       else CheckingDisabled m;
     Rcode := RcodeSuccess;
     Question := match Question request with
                 | q :: _ => [q]
                 | [] => Question m
                 end;
     Answer := Answer m |}.

(** Modelled from the spec: the method [SetRcode] of [Msg], of the same
    dependency: "a response carrying the original transaction identifier
    and a server-failure status code" is [SetReply] followed by the
    assignment of the status code. *)
Definition SetRcode (m request : Msg) (rcode : Z) : Msg :=
  let m := SetReply m request in
  {| Id := Id m; Response := Response m; Opcode := Opcode m;
     RecursionDesired := RecursionDesired m;
     CheckingDisabled := CheckingDisabled m;
     Rcode := rcode; Question := Question m; Answer := Answer m |}.

(** The assignment [resp.Id = id]. *)
Definition set_Id (m : Msg) (id : Z) : Msg :=
  {| Id := id; Response := Response m; Opcode := Opcode m;
     RecursionDesired := RecursionDesired m;
     CheckingDisabled := CheckingDisabled m;
     Rcode := Rcode m; Question := Question m; Answer := Answer m |}.

(** [type Client struct], the field [queryUDP] sets (seconds). *)
Record Client : Type := mkClient { Timeout : Z }.

End dns.

(** ** Package [upstream] (internal/upstream), its current revision

    The repository holds two revisions of this package; the one embedded
    here is the later one, with two pre-built HTTP clients and the
    DNS-over-HTTPS query sent as the body of a POST request. *)

Module upstream.

Definition bytes : Type := list Byte.byte.

(** [ctx.Err()] of a context that is done. *)
Inductive ctx_error : Type := Canceled | DeadlineExceeded.

(** The [error] values that occur: the three built with [fmt.Errorf] in
    this package, [ctx.Err()], and the errors library calls return. *)
Inductive error : Type :=
  | Err_no_upstreams                 (* "no upstreams provided" *)
  | Err_all_upstreams_failed         (* "all upstreams failed" *)
  | Err_DoH_status (code : Z)        (* "DoH server returned status: %d" *)
  | Err_ctx (e : ctx_error)
  | Err_lib (what : string).

(** A caller's [context.Context], as far as [Exchange] observes it:
    whether it can end at all, [Err()] ([None] while it is not done) and
    the time left until its deadline, if it has one. *)
Record Context : Type := mkContext {
  can_end : bool;
  ctx_err : option ctx_error;
  until_deadline : option Z
}.

(** [context.Background()]. *)
Definition Background : Context :=
  {| can_end := false; ctx_err := None; until_deadline := None |}.

(** [http.Request] as [queryDoH] builds it. *)
Record http_Request : Type := mk_http_Request {
  Method : string;
  URL : string;
  ReqBody : bytes;
  Header : list (string * string)
}.

(** [Transport.Proxy], the function that chooses the proxy a request
    goes through: the one function the package names,
    [http.ProxyFromEnvironment], which reads [HTTP_PROXY], [HTTPS_PROXY]
    and [NO_PROXY]. *)
Inductive proxy_func : Type :=
  | ProxyFromEnvironment.

(** [http.Client]: its timeout (seconds) and its [CheckRedirect], the
    policy for following redirects ([None] is Go's nil, with which
    [net/http] follows up to ten of them); of its transport, the proxy
    function ([None] for nil: no proxy), the TLS setting and the HTTP/2
    flag.  The proxy and the redirects decide which peer a [client.Do]
    connects to for a given request. *)
Record http_Client : Type := mk_http_Client {
  http_Timeout : Z;
  CheckRedirect : option (http_Request -> list http_Request -> option error);
  Proxy : option proxy_func;
  InsecureSkipVerify : bool;
  ForceAttemptHTTP2 : bool
}.

(** [type Client struct]. *)
Record Client : Type := mkClient {
  httpClientVerify : http_Client;
  httpClientInsecure : http_Client
}.

(** [func NewClient]: the two clients differ in the TLS setting only;
    no [CheckRedirect] is set. *)
Definition NewClient : Client :=
  {| httpClientVerify :=
       {| http_Timeout := 5; CheckRedirect := None;
          Proxy := Some ProxyFromEnvironment;
          InsecureSkipVerify := false;
          ForceAttemptHTTP2 := true |};
     httpClientInsecure :=
       {| http_Timeout := 5; CheckRedirect := None;
          Proxy := Some ProxyFromEnvironment;
          InsecureSkipVerify := true;
          ForceAttemptHTTP2 := true |} |}.

(** [Header.Set]: replaces the value of a key, or adds the key. *)
Definition Header_Set (k v : string) (r : http_Request) : http_Request :=
  {| Method := Method r; URL := URL r; ReqBody := ReqBody r;
     Header := (k, v) :: List.filter (fun kv => negb (String.eqb (fst kv) k))
                                     (Header r) |}.

(** [http.Response]: the status code and the body, still unread. *)
Record http_Response : Type := mk_http_Response {
  StatusCode : Z;
  Body : bytes
}.

Definition StatusOK : Z := 200.

(** The behaviour of the network and of the libraries during one
    adapter call: what each library function returns.  A pair
    [(value, error)] of Go is a [sum]. *)
Record Net : Type := mkNet {
  (** [client.ExchangeContext(ctx, req, addr)], round-trip time dropped *)
  dns_ExchangeContext :
    dns.Client -> dns.Msg -> string -> option dns.Msg * option error;
  (** [req.Pack()] *)
  Msg_Pack : dns.Msg -> bytes + error;
  (** the error, if any, of [http.NewRequestWithContext] on a URL *)
  http_NewRequest_err : string -> option error;
  (** [client.Do(httpReq)] *)
  http_Do : http_Client -> http_Request -> http_Response + error;
  (** [io.ReadAll(resp.Body)] *)
  io_ReadAll : bytes -> bytes + error;
  (** [msg.Unpack(body)] *)
  Msg_Unpack : bytes -> dns.Msg + error
}.

(** The library calls an adapter makes, in order; [L_ExchangeContext]
    and [L_Do] are the ones that reach the network, and [L_Do] records
    whether a response, whose body is then open, came back. *)
Inductive LibCall : Type :=
  | L_ExchangeContext (c : dns.Client) (addr : string)
  | L_Pack
  | L_NewRequest (method url : string)
  | L_Do (c : http_Client) (r : http_Request) (answered : bool)
  | L_BodyClose
  | L_ReadAll
  | L_Unpack.

(** [type result struct { msg *dns.Msg; err error }]. *)
Record result : Type := mkResult {
  msg : option dns.Msg;
  err : option error
}.

Definition failed (e : error) : result := {| msg := None; err := Some e |}.

(** [func (c *Client) queryUDP]: the value returned and the library
    calls made. *)
Definition queryUDP (N : Net) (ctx : Context) (req : dns.Msg)
    (addr : string) : result * list LibCall :=
  let client :=
    match until_deadline ctx with
    | Some d => {| dns.Timeout := d |}
    | None => {| dns.Timeout := 5 |}
    end in
  let '(m, e) := dns_ExchangeContext N client req addr in
  ({| msg := m; err := e |}, [L_ExchangeContext client addr]).

(** Lines 305-310 of [queryDoH]: the request it builds. *)
Definition doh_request (urlStr : string) (packed : bytes) : http_Request :=
  Header_Set "Accept" "application/dns-message"
    (Header_Set "Content-Type" "application/dns-message"
       {| Method := "POST"; URL := urlStr; ReqBody := packed;
          Header := [] |}).

(** Lines 313-316: the pre-built client it selects. *)
Definition doh_client (c : Client) (tlsVerify : bool) : http_Client :=
  if negb tlsVerify then httpClientInsecure c else httpClientVerify c.

(** [func (c *Client) queryDoH]; the deferred [resp.Body.Close()] runs
    at each return that follows a successful [client.Do]. *)
Definition queryDoH (c : Client) (N : Net) (req : dns.Msg)
    (urlStr : string) (tlsVerify : bool) : result * list LibCall :=
  match Msg_Pack N req with
  | inr e => (failed e, [L_Pack])
  | inl packed =>
    match http_NewRequest_err N urlStr with
    | Some e => (failed e, [L_Pack; L_NewRequest "POST" urlStr])
    | None =>
      let httpReq := doh_request urlStr packed in
      let client := doh_client c tlsVerify in
      let pre := [L_Pack; L_NewRequest "POST" urlStr] in
      match http_Do N client httpReq with
      | inr e => (failed e, pre ++ [L_Do client httpReq false])
      | inl resp =>
        let pre := pre ++ [L_Do client httpReq true] in
        if negb (StatusCode resp =? StatusOK) then
          (failed (Err_DoH_status (StatusCode resp)), pre ++ [L_BodyClose])
        else
          match io_ReadAll N (Body resp) with
          | inr e => (failed e, pre ++ [L_ReadAll; L_BodyClose])
          | inl body =>
            match Msg_Unpack N body with
            | inr e => (failed e, pre ++ [L_ReadAll; L_Unpack; L_BodyClose])
            | inl m =>
              ({| msg := Some m; err := None |},
               pre ++ [L_ReadAll; L_Unpack; L_BodyClose])
            end
          end
      end
    end
  end.

(** The response bodies a sequence of library calls has obtained and
    not closed. *)
Fixpoint open_bodies (ls : list LibCall) : Z :=
  match ls with
  | [] => 0
  | L_Do _ _ true :: ls' => open_bodies ls' + 1
  | L_BodyClose :: ls' => open_bodies ls' - 1
  | _ :: ls' => open_bodies ls'
  end.

(** An adapter invocation: which adapter, with which arguments. *)
Inductive AdapterCall : Type :=
  | CallDoH (url : string) (tlsVerify : bool)
  | CallUDP (addr : string).

(** Lines 238-246: the adapter a goroutine selects for its copy [u] of
    an upstream identifier, and the address it passes. *)
Definition select_adapter (u : string) (tlsVerify : bool) : AdapterCall :=
  if strings.HasPrefix u "https://" || strings.HasPrefix u "http://" then
    CallDoH u tlsVerify
  else
    let u := if negb (strings.Contains u ":") then u +:+ ":53" else u in
    CallUDP u.

Definition run_adapter (c : Client) (N : Net) (ctx : Context)
    (req : dns.Msg) (a : AdapterCall) : result * list LibCall :=
  match a with
  | CallDoH url tlsVerify => queryDoH c N req url tlsVerify
  | CallUDP addr => queryUDP N ctx req addr
  end.

(** Line 273: what the receive loop takes for a success. *)
Definition is_success (r : result) : bool :=
  match err r, msg r with
  | None, Some _ => true
  | _, _ => false
  end.

(** Lines 276-278: [lastErr] after a result that is not a success. *)
Definition note_err (lastErr : option error) (r : result) : option error :=
  match err r with
  | Some e => Some e
  | None => lastErr
  end.

(** Lines 267-270: the error returned once the channel is closed. *)
Definition all_tried (lastErr : option error) : error :=
  match lastErr with
  | Some e => e
  | None => Err_all_upstreams_failed
  end.

(** *** The race of [Exchange] as a transition system

    [Exchange] starts one goroutine per upstream and a helper that
    closes the result channel, then receives in a loop.  A state holds
    what these goroutines share and where each of them is; an action is
    one of their atomic steps, or the end of the caller's context.  The
    order of the actions is the scheduler's choice. *)

(** Where the goroutine of lines 231-252 is. *)
Inductive Goroutine : Type :=
  | G_start (u : string)     (* spawned with its copy [u] of the identifier *)
  | G_select (r : result)    (* the adapter returned [r]; at the select *)
  | G_exit.                  (* [wg.Done()] has run *)

Record State : Type := mkState {
  (** the receiver and the arguments of the call *)
  client : Client;
  req : dns.Msg;
  upstreams : list string;
  tlsVerify : bool;
  (** the caller's context *)
  parent : Context;
  (** [cancel()] of the derived context has been called *)
  cancelled : bool;
  (** the goroutines of lines 229-253, in the order of [upstreams] *)
  goroutines : list Goroutine;
  (** the helper of lines 256-259 is still running *)
  closer : bool;
  (** [resultChan]: its buffer, oldest first, and whether it is closed *)
  resultChan : list result;
  closed : bool;
  (** the receive loop: [lastErr], and the values returned, once it has *)
  lastErr : option error;
  returned : option (option dns.Msg * option error);
  (** history, read by no transition: the adapter invocations with
      their results, the library calls, and the results sent to the
      channel, received from it, and dropped at the select of a
      goroutine, each in order of occurrence *)
  invoked : list (nat * AdapterCall * result);
  libcalls : list LibCall;
  sent : list result;
  seen : list result;
  dropped : list result
}.

(** [<-ctx.Done()] of the derived context is ready. *)
Definition ctx_done (s : State) : bool :=
  cancelled s
  || match ctx_err (parent s) with Some _ => true | None => false end.

(** Lines 214-259: the state in which the receive loop is entered, or,
    for an empty list, in which the call has returned.  The goroutines
    are all in their first state: a step one of them takes while the
    loop of lines 229-253 is still spawning the others reads and writes
    nothing that the spawning touches, so it can be taken afterwards. *)
Definition start (c : Client) (ctx : Context) (r : dns.Msg)
    (ups : list string) (v : bool) : State :=
  if (length ups =? 0)%nat then
    {| client := c; req := r; upstreams := ups; tlsVerify := v;
       parent := ctx; cancelled := false; goroutines := []; closer := false;
       resultChan := []; closed := false; lastErr := None;
       returned := Some (None, Some Err_no_upstreams);
       invoked := []; libcalls := []; sent := []; seen := []; dropped := [] |}
  else
    {| client := c; req := r; upstreams := ups; tlsVerify := v;
       parent := ctx; cancelled := false;
       goroutines := map G_start ups; closer := true;
       resultChan := []; closed := false; lastErr := None;
       returned := None;
       invoked := []; libcalls := []; sent := []; seen := []; dropped := [] |}.

(** Goroutine [i] runs lines 234-246 while the network behaves as [N]. *)
Definition do_query (i : nat) (N : Net) (s : State) : option State :=
  match goroutines s !! i with
  | Some (G_start u) =>
    let a := select_adapter u (tlsVerify s) in
    let '(r, ls) := run_adapter (client s) N (parent s) (req s) a in
    Some {| client := client s; req := req s; upstreams := upstreams s;
            tlsVerify := tlsVerify s; parent := parent s;
            cancelled := cancelled s;
            goroutines := <[i := G_select r]> (goroutines s);
            closer := closer s; resultChan := resultChan s;
            closed := closed s; lastErr := lastErr s;
            returned := returned s;
            invoked := invoked s ++ [(i, a, r)];
            libcalls := libcalls s ++ ls;
            sent := sent s; seen := seen s;
            dropped := dropped s |}
  | _ => None
  end.

(** Line 249: goroutine [i] sends its result; the send needs room in the
    buffer of capacity [len(upstreams)] and an open channel. *)
Definition do_send (i : nat) (s : State) : option State :=
  match goroutines s !! i with
  | Some (G_select r) =>
    if (length (resultChan s) <? length (upstreams s))%nat
       && negb (closed s) then
      Some {| client := client s; req := req s; upstreams := upstreams s;
              tlsVerify := tlsVerify s; parent := parent s;
              cancelled := cancelled s;
              goroutines := <[i := G_exit]> (goroutines s);
              closer := closer s; resultChan := resultChan s ++ [r];
              closed := closed s; lastErr := lastErr s;
              returned := returned s;
              invoked := invoked s; libcalls := libcalls s;
              sent := sent s ++ [r]; seen := seen s;
              dropped := dropped s |}
    else None
  | _ => None
  end.

(** Line 250: goroutine [i] sees the context done and drops its result. *)
Definition do_drop (i : nat) (s : State) : option State :=
  match goroutines s !! i with
  | Some (G_select r) =>
    if ctx_done s then
      Some {| client := client s; req := req s; upstreams := upstreams s;
              tlsVerify := tlsVerify s; parent := parent s;
              cancelled := cancelled s;
              goroutines := <[i := G_exit]> (goroutines s);
              closer := closer s; resultChan := resultChan s;
              closed := closed s; lastErr := lastErr s;
              returned := returned s;
              invoked := invoked s; libcalls := libcalls s;
              sent := sent s; seen := seen s;
              dropped := dropped s ++ [r] |}
    else None
  | _ => None
  end.

Definition exited (g : Goroutine) : bool :=
  match g with G_exit => true | _ => false end.

(** Lines 257-258: [wg.Wait()] returns and the helper closes the channel. *)
Definition do_close (s : State) : option State :=
  if closer s && forallb exited (goroutines s) then
    Some {| client := client s; req := req s; upstreams := upstreams s;
            tlsVerify := tlsVerify s; parent := parent s;
            cancelled := cancelled s; goroutines := goroutines s;
            closer := false; resultChan := resultChan s;
            closed := true; lastErr := lastErr s;
            returned := returned s;
            invoked := invoked s; libcalls := libcalls s;
            sent := sent s; seen := seen s;
            dropped := dropped s |}
  else None.

(** A return of the receive loop; the deferred [cancel()] runs. *)
Definition do_return (ret : option dns.Msg * option error)
    (ch : list result) (sn : list result) (s : State) : State :=
  {| client := client s; req := req s; upstreams := upstreams s;
     tlsVerify := tlsVerify s; parent := parent s;
     cancelled := true; goroutines := goroutines s;
     closer := closer s; resultChan := ch;
     closed := closed s; lastErr := lastErr s;
     returned := Some ret;
     invoked := invoked s; libcalls := libcalls s;
     sent := sent s; seen := sn; dropped := dropped s |}.

(** Lines 264-278: the receive case of the select. *)
Definition do_recv (s : State) : option State :=
  match returned s with
  | Some _ => None
  | None =>
    match resultChan s with
    | res :: rest =>
      if is_success res then
        Some (do_return (msg res, None) rest (seen s ++ [res]) s)
      else
        Some {| client := client s; req := req s; upstreams := upstreams s;
                tlsVerify := tlsVerify s; parent := parent s;
                cancelled := cancelled s; goroutines := goroutines s;
                closer := closer s; resultChan := rest;
                closed := closed s; lastErr := note_err (lastErr s) res;
                returned := None;
                invoked := invoked s; libcalls := libcalls s;
                sent := sent s; seen := seen s ++ [res];
                dropped := dropped s |}
    | [] =>
      if closed s then
        Some (do_return (None, Some (all_tried (lastErr s))) [] (seen s) s)
      else None
    end
  end.

(** Lines 279-280: the [ctx.Done()] case of the select.  Before the loop
    returns, [cancel()] has not run: the derived context is done when
    the caller's is, with the same error. *)
Definition do_done (s : State) : option State :=
  match returned s, ctx_err (parent s) with
  | None, Some e =>
    Some (do_return (None, Some (Err_ctx e)) (resultChan s) (seen s) s)
  | _, _ => None
  end.

(** The caller's context ends with error [e]. *)
Definition do_ctx_end (e : ctx_error) (s : State) : option State :=
  if can_end (parent s)
     && match ctx_err (parent s) with Some _ => false | None => true end then
    Some {| client := client s; req := req s; upstreams := upstreams s;
            tlsVerify := tlsVerify s;
            parent := {| can_end := true; ctx_err := Some e;
                         until_deadline := until_deadline (parent s) |};
            cancelled := cancelled s; goroutines := goroutines s;
            closer := closer s; resultChan := resultChan s;
            closed := closed s; lastErr := lastErr s;
            returned := returned s;
            invoked := invoked s; libcalls := libcalls s;
            sent := sent s; seen := seen s;
            dropped := dropped s |}
  else None.

Inductive Action : Type :=
  | A_query (i : nat) (N : Net)
  | A_send (i : nat)
  | A_drop (i : nat)
  | A_close
  | A_recv
  | A_done
  | A_ctx_end (e : ctx_error).

Definition exec (a : Action) (s : State) : option State :=
  match a with
  | A_query i N => do_query i N s
  | A_send i => do_send i s
  | A_drop i => do_drop i s
  | A_close => do_close s
  | A_recv => do_recv s
  | A_done => do_done s
  | A_ctx_end e => do_ctx_end e s
  end.

(** A schedule is run from left to right; [None] when one of its actions
    is not enabled. *)
Fixpoint run (sched : list Action) (s : State) : option State :=
  match sched with
  | [] => Some s
  | a :: sched' =>
    match exec a s with
    | Some s' => run sched' s'
    | None => None
    end
  end.

(** The actions of the program itself, as opposed to its caller. *)
Definition internal (a : Action) : bool :=
  match a with A_ctx_end _ => false | _ => true end.

(** Every goroutine the call started has finished and the call has
    returned. *)
Definition quiescent (s : State) : bool :=
  forallb exited (goroutines s) && negb (closer s)
  && match returned s with Some _ => true | None => false end.

(** [Exchange] may return [ret]: some schedule leads to a state in which
    the receive loop has returned it. *)
Definition Exchange (c : Client) (ctx : Context) (r : dns.Msg)
    (ups : list string) (v : bool)
    (ret : option dns.Msg * option error) : Prop :=
  exists sched s, run sched (start c ctx r ups v) = Some s /\
                  returned s = Some ret.

(** *** Quantities of a state used to state its invariants *)

(** The results held by goroutines waiting at their select. *)
Definition pending (gs : list Goroutine) : list result :=
  omap (fun g => match g with G_select r => Some r | _ => None end) gs.

Definition starting (g : Goroutine) : bool :=
  match g with G_start _ => true | _ => false end.

(** The number of goroutines that have not called their adapter yet. *)
Definition not_started (gs : list Goroutine) : nat :=
  length (List.filter starting gs).

(** The result an invocation returned. *)
Definition outcome (x : nat * AdapterCall * result) : result := snd x.

(** The first success among results, in their order. *)
Definition first_success (rs : list result) : option result :=
  List.find is_success rs.

(** [lastErr] after the receive loop has taken the results [rs], none
    of them a success, in this order. *)
Definition last_err (rs : list result) : option error :=
  foldl note_err None rs.

(** An upper bound on the number of actions a state can still take. *)
Definition fuel (s : State) : nat :=
  (2 * not_started (goroutines s) + length (pending (goroutines s))
   + (if closer s then 1 else 0)
   + (if can_end (parent s)
         && match ctx_err (parent s) with Some _ => false | None => true end
      then 1 else 0)
   + match returned s with
     | None => 1 + length (resultChan s) + not_started (goroutines s)
               + length (pending (goroutines s))
     | Some _ => 0
     end)%nat.

(** How a return of the receive loop relates to what it has received:
    the last result received is the first success; or the channel is
    closed and drained and no result was a success; or the caller's
    context has ended. *)
Inductive Returned (s : State) (ret : option dns.Msg * option error) : Prop :=
  | Ret_success pre res :
      seen s = pre ++ [res] ->
      forallb (fun r => negb (is_success r)) pre = true ->
      is_success res = true ->
      ret = (msg res, None) ->
      Returned s ret
  | Ret_all_tried :
      forallb (fun r => negb (is_success r)) (seen s) = true ->
      closed s = true ->
      resultChan s = [] ->
      (ctx_err (parent s) = None -> dropped s = []) ->
      ret = (None, Some (all_tried (last_err (seen s)))) ->
      Returned s ret
  | Ret_ctx e :
      ctx_err (parent s) = Some e ->
      ret = (None, Some (Err_ctx e)) ->
      Returned s ret.

(** The invariant of a call with a non-empty upstream list. *)
Record Invariant (s : State) : Prop := mkInvariant {
  inv_len : length (goroutines s) = length (upstreams s);
  inv_closer : closer s = negb (closed s);
  inv_closed : closed s = true -> forallb exited (goroutines s) = true;
  inv_chan : sent s = seen s ++ resultChan s;
  inv_results :
    map outcome (invoked s) ≡ₚ
    sent s ++ dropped s ++ pending (goroutines s);
  inv_count :
    (length (invoked s) + not_started (goroutines s))%nat =
    length (upstreams s);
  inv_dropped : dropped s <> [] -> ctx_done s = true;
  inv_running :
    returned s = None ->
    cancelled s = false /\
    forallb (fun r => negb (is_success r)) (seen s) = true /\
    lastErr s = last_err (seen s);
  inv_returned :
    forall ret, returned s = Some ret ->
                cancelled s = true /\ Returned s ret
}.

(** The state of a call with an empty list: no goroutine, no helper,
    the error returned, and nothing invoked. *)
Definition nothing_started (s : State) : Prop :=
  goroutines s = [] /\ closer s = false /\
  returned s = Some (None, Some Err_no_upstreams) /\
  invoked s = [] /\ libcalls s = [].

(** A network on which every library call fails. *)
Definition unreachable : Net :=
  {| dns_ExchangeContext := fun _ _ _ => (None, Some (Err_lib "i/o timeout"));
     Msg_Pack := fun _ => inr (Err_lib "pack");
     http_NewRequest_err := fun _ => Some (Err_lib "url");
     http_Do := fun _ _ => inr (Err_lib "dial");
     io_ReadAll := fun _ => inr (Err_lib "read");
     Msg_Unpack := fun _ => inr (Err_lib "unpack") |}.

End upstream.

(** ** Package [server] (internal/server) *)

Module server.

(** [type Server struct]. *)
Record Server : Type := mkServer {
  cfg : config.Config;
  devManager : device.Manager;
  client : upstream.Client
}.

(** What [ServeDNS] has done when it returns: nothing written (the query
    is dropped), or one message passed to [w.WriteMsg]. *)
Inductive Outcome : Type :=
  | Dropped
  | Wrote (m : dns.Msg)
  | Panicked.

Section WithNet.

Context {IP : Type}.
Variable ParseIP : string -> option IP.
Variable IPString : IP -> string.
(** [net.SplitHostPort]: host and port, or an error. *)
Variable SplitHostPort : string -> (string * string) + string.

(** Lines 30-50 of [ServeDNS]: [None] when the query is dropped,
    otherwise the upstream list and the flag passed to [Exchange]. *)
Definition route (s : Server) (remoteAddr : string)
    : option (list string * bool) :=
  match SplitHostPort remoteAddr with
  | inr _ => None
  | inl (ipStr, _) =>
    let clientIP := ParseIP ipStr in
    match device.Get IPString (devManager s) clientIP with
    | Some dev => Some (device.Upstreams dev, device.TLSVerify dev)
    | None => Some (config.Upstreams (cfg s), true)
    end
  end.

(** Lines 55-66: what is written once [Exchange] has returned
    [(resp, err)].  The assignment [resp.Id = r.Id] dereferences
    [resp]. *)
Definition respond (r : dns.Msg)
    (ret : option dns.Msg * option upstream.error) : Outcome :=
  let '(resp, err) := ret in
  match err with
  | Some _ => Wrote (dns.SetRcode dns.new_Msg r dns.RcodeServerFailure)
  | None =>
    match resp with
    | Some resp => Wrote (dns.set_Id resp (dns.Id r))
    | None => Panicked
    end
  end.

(** [func (s *Server) ServeDNS(w, r)] for a query [r] from
    [remoteAddr]: the outcomes it can have.  [Exchange] is called with
    [context.Background()]. *)
Inductive ServeDNS (s : Server) (remoteAddr : string) (r : dns.Msg)
    : Outcome -> Prop :=
  | Serve_dropped :
      route s remoteAddr = None ->
      ServeDNS s remoteAddr r Dropped
  | Serve_answered ups v ret :
      route s remoteAddr = Some (ups, v) ->
      upstream.Exchange (client s) upstream.Background r ups v ret ->
      ServeDNS s remoteAddr r (respond r ret).

End WithNet.

End server.

(** ** Package [config], the loader (internal/config/config.go)

    [Load] reads the file system through [os.Stat], [os.WriteFile] and
    [os.ReadFile] and parses with [yaml.Unmarshal]; these are taken as
    parameters over an abstract file-system state. *)

Module configfile.

(** [DefaultConfigTemplate]. *)
Definition DefaultConfigTemplate : string :=
"upstreams:
  - 1.0.0.1
  - 8.8.8.8

#devices:
#  - name: example
#    ips:
#      - 192.168.0.23
#      - 192.168.2.11
#    upstreams:
#      - 1.0.0.2
#      - https://cloudflare-dns.com/dns-query
#    tls-verify: true
".

(** The errors of the [os] calls, as far as [os.IsNotExist] tells them
    apart. *)
Inductive os_error : Type :=
  | ErrNotExist
  | ErrOther (what : string).

(** [os.IsNotExist(err)]; [None] is the nil error. *)
Definition IsNotExist (err : option os_error) : bool :=
  match err with
  | Some ErrNotExist => true
  | _ => false
  end.

(** The library calls of [Load] over a file-system state [FS]. *)
Record OS (FS : Type) : Type := mkOS {
  (** the error of [os.Stat(path)] *)
  os_Stat : FS -> string -> option os_error;
  (** [os.WriteFile(path, data, perm)]: the state it leaves and its
      error *)
  os_WriteFile : FS -> string -> string -> Z -> FS * option os_error;
  (** [os.ReadFile(path)] *)
  os_ReadFile : FS -> string -> string + os_error;
  (** [yaml.Unmarshal(data, &cfg)] on a zero [Config] *)
  yaml_Unmarshal : string -> config.Config + string
}.

Arguments os_Stat {FS}.
Arguments os_WriteFile {FS}.
Arguments os_ReadFile {FS}.
Arguments yaml_Unmarshal {FS}.

(** The errors [Load] returns, each wrapping its cause. *)
Inductive error : Type :=
  | Err_create (cause : os_error)  (* "failed to create default config file" *)
  | Err_read (cause : os_error)    (* "failed to read config file" *)
  | Err_parse (cause : string).    (* "failed to parse config file" *)

(** The library calls [Load] makes, in order. *)
Inductive Call : Type :=
  | C_Stat (path : string)
  | C_WriteFile (path data : string) (perm : Z)
  | C_ReadFile (path : string)
  | C_Unmarshal (data : string).

(** Lines 48-58 of [Load]: read and parse. *)
Definition read_config {FS} (O : OS FS) (fs : FS) (path : string)
    : (config.Config + error) * list Call :=
  match os_ReadFile O fs path with
  | inr e => (inr (Err_read e), [C_ReadFile path])
  | inl data =>
    match yaml_Unmarshal O data with
    | inr e => (inr (Err_parse e), [C_ReadFile path; C_Unmarshal data])
    | inl cfg => (inl cfg, [C_ReadFile path; C_Unmarshal data])
    end
  end.

(** [func Load(path string)]: the configuration or error returned, the
    file system it leaves, and the calls it made.  The mode [0644] is
    420. *)
Definition Load {FS} (O : OS FS) (fs : FS) (path : string)
    : (config.Config + error) * FS * list Call :=
  if IsNotExist (os_Stat O fs path) then
    match os_WriteFile O fs path DefaultConfigTemplate 420 with
    | (fs', Some e) =>
      (inr (Err_create e), fs',
       [C_Stat path; C_WriteFile path DefaultConfigTemplate 420])
    | (fs', None) =>
      let '(res, calls) := read_config O fs' path in
      (res, fs',
       [C_Stat path; C_WriteFile path DefaultConfigTemplate 420] ++ calls)
    end
  else
    let '(res, calls) := read_config O fs path in
    (res, fs, C_Stat path :: calls).

End configfile.

(** ** The grammar of upstream identifiers, as the specification gives it *)

Module identifier.

Definition is_digit (c : ascii) : bool :=
  (48 <=? Z.of_nat (nat_of_ascii c)) && (Z.of_nat (nat_of_ascii c) <=? 57).

Fixpoint all_digits (s : string) : bool :=
  match s with
  | EmptyString => true
  | String c s' => is_digit c && all_digits s'
  end.

(** The text before and after the last colon of [s], if it has one. *)
Fixpoint split_last_colon (s : string) : option (string * string) :=
  match s with
  | EmptyString => None
  | String c s' =>
    match split_last_colon s' with
    | Some (h, p) => Some (String c h, p)
    | None => if Ascii.eqb c ":" then Some (EmptyString, s') else None
    end
  end.

(** Whether the last character of [s] is [c]. *)
Fixpoint ends_with (c : ascii) (s : string) : bool :=
  match s with
  | EmptyString => false
  | String a s' =>
    match s' with
    | EmptyString => Ascii.eqb a c
    | String _ _ => ends_with c s'
    end
  end.

(** A host that a port can follow: a name or an IPv4 address, which
    hold no colon, or an IPv6 address in brackets. *)
Definition is_host (h : string) : bool :=
  negb (strings.Contains h ":") ||
  (strings.HasPrefix h "[" && ends_with "]" h).

(** The specification's "[host:port]": a host, a colon and a port, a
    non-empty decimal number.  The colons within an IPv6 address
    separate no port: ["2001:4860:4860::8888"] has none, while
    ["[2001:4860:4860::8888]:53"] has one. *)
Definition has_port (u : string) : bool :=
  match split_last_colon u with
  | Some (h, p) => is_host h && negb (String.eqb p "") && all_digits p
  | None => false
  end.

(** The specification's "[http://]/[https://] URL". *)
Definition is_url (u : string) : bool :=
  strings.HasPrefix u "https://" || strings.HasPrefix u "http://".

End identifier.

(** ** Concrete library behaviour, for examples

    The dotted-quad fragment of [net.ParseIP] and [net.IP.String], the
    [host:port] fragment of [net.SplitHostPort], and networks with a
    fixed behaviour. *)

Module sample.

(** The strings between the occurrences of [sep]. *)
Fixpoint split_on (sep : ascii) (s : string) : list string :=
  match s with
  | EmptyString => [EmptyString]
  | String c s' =>
    if Ascii.eqb c sep then EmptyString :: split_on sep s'
    else match split_on sep s' with
         | w :: ws => String c w :: ws
         | [] => [String c EmptyString]
         end
  end.

Fixpoint dec_value (acc : Z) (s : string) : Z :=
  match s with
  | EmptyString => acc
  | String c s' => dec_value (10 * acc + (Z.of_nat (nat_of_ascii c) - 48)) s'
  end.

(** A decimal octet without leading zero. *)
Definition is_octet (w : string) : bool :=
  negb (String.eqb w "") && identifier.all_digits w
  && (String.length w <=? 3)%nat && (dec_value 0 w <=? 255)
  && (String.eqb w "0" || negb (strings.HasPrefix w "0")).

(** An IPv4 address is kept as its canonical dotted-quad string. *)
Definition ParseIP (s : string) : option string :=
  let ws := split_on "." s in
  if (length ws =? 4)%nat && forallb is_octet ws then Some s else None.

Definition IPString (ip : string) : string := ip.

(** The text before and after the first occurrence of [c] in [s]. *)
Fixpoint split_first (c : ascii) (s : string) : option (string * string) :=
  match s with
  | EmptyString => None
  | String d s' =>
    if Ascii.eqb d c then Some (EmptyString, s')
    else match split_first c s' with
         | Some (h, t) => Some (String d h, t)
         | None => None
         end
  end.

(** [host:port] and [[host]:port]. *)
Definition SplitHostPort (hostport : string) : (string * string) + string :=
  match hostport with
  | String "[" rest =>
    match split_first "]" rest with
    | Some (h, String ":" p) => inl (h, p)
    | Some _ => inr "missing port in address"
    | None => inr "missing ']' in address"
    end
  | _ =>
    match identifier.split_last_colon hostport with
    | None => inr "missing port in address"
    | Some (h, p) =>
      if strings.Contains h ":" then inr "too many colons in address"
      else inl (h, p)
    end
  end.

(** An answer to a query: the query's own header turned into a reply,
    under the upstream's own identifier, with one record. *)
Definition answer_to (q : dns.Msg) (id : Z) (rr : string) : dns.Msg :=
  let m := dns.SetReply dns.new_Msg q in
  {| dns.Id := id; dns.Response := true; dns.Opcode := dns.Opcode m;
     dns.RecursionDesired := dns.RecursionDesired m;
     dns.CheckingDisabled := dns.CheckingDisabled m;
     dns.Rcode := dns.RcodeSuccess; dns.Question := dns.Question m;
     dns.Answer := [rr] |}.

(** A network on which classic resolvers answer and HTTPS endpoints
    return the status [status] with an empty body. *)
Definition answering (id : Z) (rr : string) (status : Z) : upstream.Net :=
  {| upstream.dns_ExchangeContext :=
       fun _ q _ => (Some (answer_to q id rr), None);
     upstream.Msg_Pack := fun _ => inl [];
     upstream.http_NewRequest_err := fun _ => None;
     upstream.http_Do :=
       fun _ _ => inl {| upstream.StatusCode := status;
                         upstream.Body := [] |};
     upstream.io_ReadAll := fun b => inl b;
     upstream.Msg_Unpack := fun _ => inl (answer_to dns.new_Msg id rr) |}.

(** A network on which classic resolvers refuse the connection. *)
Definition refusing (what : string) : upstream.Net :=
  {| upstream.dns_ExchangeContext :=
       fun _ _ _ => (None, Some (upstream.Err_lib what));
     upstream.Msg_Pack := fun _ => inl [];
     upstream.http_NewRequest_err := fun _ => None;
     upstream.http_Do := fun _ _ => inr (upstream.Err_lib what);
     upstream.io_ReadAll := fun b => inl b;
     upstream.Msg_Unpack := fun _ => inr (upstream.Err_lib what) |}.

(** Two resolvers that both answer, each with a record of its own. *)
Definition both_answer (u : string) : upstream.Net :=
  if String.eqb u "1.0.0.1" then answering 7 "a" 200 else answering 9 "b" 200.

(** A query with identifier [id]. *)
Definition query (id : Z) (name : string) : dns.Msg :=
  {| dns.Id := id; dns.Response := false; dns.Opcode := dns.OpcodeQuery;
     dns.RecursionDesired := true; dns.CheckingDisabled := false;
     dns.Rcode := 0; dns.Question := [name]; dns.Answer := [] |}.

(** A caller's context that can be cancelled and has not been. *)
Definition cancellable : upstream.Context :=
  {| upstream.can_end := true; upstream.ctx_err := None;
     upstream.until_deadline := None |}.

(** The second scenario of the specification, preceded by a device that
    declares the same address. *)
Definition two_devices : config.Config :=
  {| config.Upstreams := ["1.0.0.1"; "8.8.8.8"];
     config.Devices :=
       [ {| config.Device.Name := "old"; config.Device.IPs := ["192.168.0.23"];
            config.Device.Upstreams := ["9.9.9.9"];
            config.Device.TLSVerify := None |};
         {| config.Device.Name := "test";
            config.Device.IPs := ["not-an-ip"; "192.168.0.23"];
            config.Device.Upstreams := ["1.0.0.2"];
            config.Device.TLSVerify := Some false |} ] |}.

(** A device that has no setting for the verification of certificates,
    followed by one that turns it off. *)
Definition nas_and_test : config.Config :=
  {| config.Upstreams := ["1.0.0.1"; "8.8.8.8"];
     config.Devices :=
       [ {| config.Device.Name := "nas"; config.Device.IPs := ["10.0.0.5"];
            config.Device.Upstreams := ["https://dns.example/dns-query"];
            config.Device.TLSVerify := None |};
         {| config.Device.Name := "test";
            config.Device.IPs := ["not-an-ip"; "192.168.0.23"];
            config.Device.Upstreams := ["1.0.0.2"];
            config.Device.TLSVerify := Some false |} ] |}.

(** The server [main] builds from [two_devices]. *)
Definition two_devices_server : server.Server :=
  {| server.cfg := two_devices;
     server.devManager := device.NewManager ParseIP IPString two_devices;
     server.client := upstream.NewClient |}.

End sample.

(** ** A concrete file system, for examples

    Files are a finite map from paths to contents; every call succeeds
    when the file is there, and the parser knows the default template
    only. *)

Module sample_fs.

Definition FS : Type := gmap string string.

Definition parsed_template : config.Config :=
  {| config.Upstreams := ["1.0.0.1"; "8.8.8.8"]; config.Devices := [] |}.

Definition files : configfile.OS FS :=
  {| configfile.os_Stat := fun fs p =>
       match fs !! p with
       | Some _ => None
       | None => Some configfile.ErrNotExist
       end;
     configfile.os_WriteFile := fun fs p d _ => (<[p := d]> fs, None);
     configfile.os_ReadFile := fun fs p =>
       match fs !! p with
       | Some d => inl d
       | None => inr configfile.ErrNotExist
       end;
     configfile.yaml_Unmarshal := fun d =>
       if String.eqb d configfile.DefaultConfigTemplate
       then inl parsed_template
       else inr "yaml: unmarshal errors" |}.

End sample_fs.

(** ** A network whose classic resolvers return a message together with
    an error *)

Module sample_net.

Definition truncating : upstream.Net :=
  {| upstream.dns_ExchangeContext := fun _ q _ =>
       (Some (sample.answer_to q 7 "a"),
        Some (upstream.Err_lib "truncated"));
     upstream.Msg_Pack := fun _ => inl [];
     upstream.http_NewRequest_err := fun _ => None;
     upstream.http_Do := fun _ _ => inr (upstream.Err_lib "dial");
     upstream.io_ReadAll := fun b => inl b;
     upstream.Msg_Unpack := fun _ => inr (upstream.Err_lib "unpack") |}.

End sample_net.

(** ** Calls on reordered upstream lists *)

Module reorder.

(** The states [s] and [s'] of two calls agree on everything the
    transitions read, the goroutine at position [i] of the one being the
    goroutine at position [f i] of the other; their histories are not
    compared. *)
Record similar (f : nat -> nat) (s s' : upstream.State) : Prop := mkSimilar {
  sim_client : upstream.client s = upstream.client s';
  sim_req : upstream.req s = upstream.req s';
  sim_tlsVerify : upstream.tlsVerify s = upstream.tlsVerify s';
  sim_parent : upstream.parent s = upstream.parent s';
  sim_cancelled : upstream.cancelled s = upstream.cancelled s';
  sim_closer : upstream.closer s = upstream.closer s';
  sim_resultChan : upstream.resultChan s = upstream.resultChan s';
  sim_closed : upstream.closed s = upstream.closed s';
  sim_lastErr : upstream.lastErr s = upstream.lastErr s';
  sim_returned : upstream.returned s = upstream.returned s';
  sim_capacity :
    length (upstream.upstreams s) = length (upstream.upstreams s');
  sim_length :
    length (upstream.goroutines s) = length (upstream.goroutines s');
  sim_goroutines :
    forall i, upstream.goroutines s !! i = upstream.goroutines s' !! f i
}.

(** The action of the other call that corresponds to an action. *)
Definition rename (f : nat -> nat) (a : upstream.Action) : upstream.Action :=
  match a with
  | upstream.A_query i N => upstream.A_query (f i) N
  | upstream.A_send i => upstream.A_send (f i)
  | upstream.A_drop i => upstream.A_drop (f i)
  | _ => a
  end.

(** The schedule runs the attempt for each upstream on the network
    [net_of] gives for its identifier: how an upstream answers depends
    on the upstream, not on its place in the list. *)
Definition on_networks (net_of : string -> upstream.Net)
    (ups : list string) (sched : list upstream.Action) : Prop :=
  Forall (fun a =>
            match a with
            | upstream.A_query i N =>
              exists u, ups !! i = Some u /\ N = net_of u
            | _ => True
            end) sched.

(** [Exchange] may return [ret] when the upstreams answer as [net_of]
    says. *)
Definition Exchange_on (net_of : string -> upstream.Net)
    (c : upstream.Client) (ctx : upstream.Context) (r : dns.Msg)
    (ups : list string) (v : bool)
    (ret : option dns.Msg * option upstream.error) : Prop :=
  exists sched s,
    upstream.run sched (upstream.start c ctx r ups v) = Some s /\
    upstream.returned s = Some ret /\
    on_networks net_of ups sched.

End reorder.

(** ** What a call hands to the libraries *)

Module destinations.

(** A library call that stays within the upstreams [ups] of a call with
    receiver [c], flag [v] and a caller's context with time [deadline]
    left: a classic exchange goes to the address selected for an
    upstream that is no URL, with the default timeout when there is no
    deadline; a request is a POST to an upstream that is a URL, through
    the client chosen by the flag. *)
Definition allowed (c : upstream.Client) (ups : list string) (v : bool)
    (deadline : option Z) (l : upstream.LibCall) : Prop :=
  match l with
  | upstream.L_ExchangeContext cl addr =>
    (exists u, u ∈ ups /\ identifier.is_url u = false /\
               upstream.select_adapter u v = upstream.CallUDP addr) /\
    (deadline = None -> dns.Timeout cl = 5)
  | upstream.L_NewRequest method url =>
    method = "POST" /\ url ∈ ups /\ identifier.is_url url = true
  | upstream.L_Do cl rq _ =>
    cl = upstream.doh_client c v /\ upstream.Method rq = "POST" /\
    upstream.URL rq ∈ ups /\ identifier.is_url (upstream.URL rq) = true
  | _ => True
  end.

End destinations.

(** ** The wiring of [main] (lines 52-55) *)

Module wiring.

(** [func NewServer]. *)
Definition NewServer (cfg : config.Config) (devManager : device.Manager)
    (client : upstream.Client) : server.Server :=
  {| server.cfg := cfg; server.devManager := devManager;
     server.client := client |}.

(** The server [main] builds from a loaded configuration. *)
Definition main_server {IP : Type} (ParseIP : string -> option IP)
    (IPString : IP -> string) (cfg : config.Config) : server.Server :=
  let devManager := device.NewManager ParseIP IPString cfg in
  let client := upstream.NewClient in
  NewServer cfg devManager client.

End wiring.

(** * Properties *)

(** ** The device index *)

Section DeviceIndex.

Context {IP : Type}.
Variable ParseIP : string -> option IP.
Variable IPString : IP -> string.

Local Abbreviation add_ips := (device.add_ips ParseIP IPString).
Local Abbreviation add_devices := (device.add_devices ParseIP IPString).
Local Abbreviation NewManager := (device.NewManager ParseIP IPString).
Local Abbreviation Get := (device.Get IPString).
Local Abbreviation declares := (device.declares ParseIP IPString).

(** The inner loop leaves [dev] at [key] when one of the strings parses
    to [key], and the table as it was otherwise. *)
Lemma add_ips_lookup dev ips (m : gmap string device.Device) key :
  add_ips dev ips m !! key =
  if existsb (fun ipStr =>
                match ParseIP ipStr with
                | Some ip => bool_decide (IPString ip = key)
                | None => false
                end) ips
  then Some dev else m !! key.
Proof.
  revert m. induction ips as [|ipStr ips IH]; intros m; [done|].
  cbn [device.add_ips foldl existsb].
  change (foldl _ ?m0 ips) with (add_ips dev ips m0). rewrite IH.
  destruct (existsb _ ips); [by rewrite orb_true_r|].
  rewrite orb_false_r. destruct (ParseIP ipStr) as [ip|]; [|done].
  case_bool_decide as Hk.
  - subst key. by rewrite lookup_insert_eq.
  - by rewrite lookup_insert_ne.
Qed.

Lemma add_devices_snoc ds d (m : gmap string device.Device) :
  add_devices (ds ++ [d]) m =
  add_ips (device.dev_of d) (config.Device.IPs d) (add_devices ds m).
Proof. unfold device.add_devices. by rewrite foldl_app. Qed.

(** What the table holds at [key] after the outer loop. *)
Lemma add_devices_lookup ds key :
  match add_devices ds ∅ !! key with
  | Some p =>
    exists before d after,
      ds = before ++ d :: after /\ declares key d = true /\
      forallb (fun d' => negb (declares key d')) after = true /\
      p = device.dev_of d
  | None => forallb (fun d' => negb (declares key d')) ds = true
  end.
Proof.
  induction ds as [|d ds IH] using rev_ind.
  { unfold device.add_devices. cbn [foldl]. by rewrite lookup_empty. }
  rewrite add_devices_snoc, add_ips_lookup.
  fold (declares key d). destruct (declares key d) eqn:Hd.
  - exists ds, d, []. by rewrite Hd.
  - destruct (add_devices ds ∅ !! key) as [p|].
    + destruct IH as (before & d0 & after & -> & Hd0 & Hafter & ->).
      exists before, d0, (after ++ [d]). split; [by rewrite <- app_assoc|].
      split; [done|]. split; [|done].
      rewrite forallb_app, Hafter. cbn. by rewrite Hd.
    + rewrite forallb_app, IH. cbn. by rewrite Hd.
  Qed.

(** C5: a lookup by a client address returns the policy of the last
    configured device that declares the canonical string of the address
    (no device after it declares it), and returns none when no
    configured device declares it; a lookup by a nil address returns
    none. *)
Theorem Get_last_declaring_device (cfg : config.Config) (ip : IP) :
  Get (NewManager cfg) None = None /\
  match Get (NewManager cfg) (Some ip) with
  | Some p =>
    exists before d after,
      config.Devices cfg = before ++ d :: after /\
      declares (IPString ip) d = true /\
      forallb (fun d' => negb (declares (IPString ip) d')) after = true /\
      p = device.dev_of d
  | None =>
    forallb (fun d' => negb (declares (IPString ip) d'))
            (config.Devices cfg) = true
  end.
Proof.
  split; [reflexivity|].
  unfold device.Get, device.NewManager. cbn [device.ipMap].
  apply add_devices_lookup.
Qed.

(** The device that declares [key] last is the one whose policy the
    table holds there. *)
Lemma add_devices_last_declaring before d after key :
  declares key d = true ->
  forallb (fun d' => negb (declares key d')) after = true ->
  add_devices (before ++ d :: after) ∅ !! key = Some (device.dev_of d).
Proof.
  intros Hd. induction after as [|x after IH] using rev_ind; intros Hafter.
  - rewrite (add_devices_snoc before d), add_ips_lookup.
    fold (declares key d). by rewrite Hd.
  - rewrite forallb_app in Hafter. apply andb_true_iff in Hafter as [Hafter Hx].
    cbn in Hx. rewrite andb_true_r in Hx. apply negb_true_iff in Hx.
    rewrite app_comm_cons, app_assoc, add_devices_snoc, add_ips_lookup.
    fold (declares key x). rewrite Hx. by apply IH.
Qed.

(** C7: for every configured device and every key it declares that no
    later device declares, the index built by [NewManager] holds at that
    key the policy with the name and the upstreams of the device and
    with the TLS-verify flag resolved, to [true] when the device has no
    setting and to the configured value otherwise; and the index holds
    no other entry, so every stored policy carries the resolved flag of
    the device it was built from. *)
Theorem NewManager_resolves_TLSVerify (cfg : config.Config)
    (key : string) (p : device.Device) :
  device.ipMap (NewManager cfg) !! key = Some p <->
  exists before d after,
    config.Devices cfg = before ++ d :: after /\
    declares key d = true /\
    forallb (fun d' => negb (declares key d')) after = true /\
    p = {| device.Name := config.Device.Name d;
           device.Upstreams := config.Device.Upstreams d;
           device.TLSVerify := match config.Device.TLSVerify d with
                               | Some b => b
                               | None => true
                               end |}.
Proof.
  unfold device.NewManager. cbn [device.ipMap]. split.
  - intros Hp. pose proof (add_devices_lookup (config.Devices cfg) key) as H.
    rewrite Hp in H. exact H.
  - intros (before & d & after & -> & Hd & Hafter & ->).
    by apply add_devices_last_declaring.
Qed.

End DeviceIndex.

(** The first device of [sample.nas_and_test] has no setting: its
    address is resolved to a policy that verifies, although it is not the
    last device; the second has one, which is kept. *)
Lemma NewManager_resolves_TLSVerify_witness :
  device.ipMap (device.NewManager sample.ParseIP sample.IPString
                  sample.nas_and_test) !! "10.0.0.5" =
  Some (device.mkDevice "nas" ["https://dns.example/dns-query"] true) /\
  device.ipMap (device.NewManager sample.ParseIP sample.IPString
                  sample.nas_and_test) !! "192.168.0.23" =
  Some (device.mkDevice "test" ["1.0.0.2"] false).
Proof.
  split.
  - apply (proj2 (NewManager_resolves_TLSVerify sample.ParseIP sample.IPString
                    sample.nas_and_test "10.0.0.5" _)).
    exists [], {| config.Device.Name := "nas";
                  config.Device.IPs := ["10.0.0.5"];
                  config.Device.Upstreams := ["https://dns.example/dns-query"];
                  config.Device.TLSVerify := None |},
           [ {| config.Device.Name := "test";
                config.Device.IPs := ["not-an-ip"; "192.168.0.23"];
                config.Device.Upstreams := ["1.0.0.2"];
                config.Device.TLSVerify := Some false |} ].
    repeat split; vm_compute; reflexivity.
  - apply (proj2 (NewManager_resolves_TLSVerify sample.ParseIP sample.IPString
                    sample.nas_and_test "192.168.0.23" _)).
    exists [ {| config.Device.Name := "nas";
                config.Device.IPs := ["10.0.0.5"];
                config.Device.Upstreams := ["https://dns.example/dns-query"];
                config.Device.TLSVerify := None |} ],
           {| config.Device.Name := "test";
              config.Device.IPs := ["not-an-ip"; "192.168.0.23"];
              config.Device.Upstreams := ["1.0.0.2"];
              config.Device.TLSVerify := Some false |}, [].
    repeat split; vm_compute; reflexivity.
Defined.

(** ** The transport adapters *)

Section Adapters.

Import upstream.

(** An identifier without a colon has no port. *)
Lemma split_last_colon_None u :
  strings.Contains u ":" = false -> identifier.split_last_colon u = None.
Proof.
  induction u as [|c u IH]; [done|].
  cbn [strings.Contains strings.HasPrefix identifier.split_last_colon].
  rewrite andb_true_r, (Ascii.eqb_sym ":" c).
  destruct (Ascii.eqb c ":"); [done|].
  cbn [orb]. intros H. by rewrite (IH H).
Qed.

Lemma no_colon_no_port u :
  strings.Contains u ":" = false -> identifier.has_port u = false.
Proof.
  intros H. unfold identifier.has_port. by rewrite split_last_colon_None.
Qed.

(** Where the test of line 242 does what it is meant to: for an
    identifier that is not an [http://] or [https://] URL and contains
    no colon (and so has no port), the goroutine passes the identifier
    followed by [":53"] to the classic adapter, which dials that
    address. *)
Theorem select_adapter_appends_port_53 (u : string) (v : bool) :
  identifier.is_url u = false ->
  strings.Contains u ":" = false ->
  identifier.has_port u = false /\
  select_adapter u v = CallUDP (u +:+ ":53") /\
  forall c N ctx req,
    exists cl,
      snd (run_adapter c N ctx req (select_adapter u v)) =
      [L_ExchangeContext cl (u +:+ ":53")].
Proof.
  intros Hurl Hcolon. split; [by apply no_colon_no_port|].
  assert (select_adapter u v = CallUDP (u +:+ ":53")) as ->.
  { unfold select_adapter.
    unfold identifier.is_url in Hurl. by rewrite Hurl, Hcolon. }
  split; [done|]. intros c N ctx req. cbn. unfold queryUDP.
  destruct (dns_ExchangeContext N _ req _). eauto.
Qed.

Lemma select_adapter_appends_port_53_witness :
  identifier.has_port "9.9.9.9" = false /\
  select_adapter "9.9.9.9" true = CallUDP "9.9.9.9:53" /\
  forall c N ctx req,
    exists cl,
      snd (run_adapter c N ctx req (select_adapter "9.9.9.9" true)) =
      [L_ExchangeContext cl "9.9.9.9:53"].
Proof.
  apply (select_adapter_appends_port_53 "9.9.9.9" true); reflexivity.
Defined.

(** C6 does not hold of the code: the goroutine decides whether a port
    is there by looking for a colon (line 242), and misses the IPv6
    addresses, whose colons separate no port.  The upstream
    ["2620:fe::fe"] is not a URL and lacks a port; the goroutine leaves
    it as it is and the classic adapter is asked to dial
    ["2620:fe::fe"], on every network and with either flag, where the
    claim has [":53"] appended.  [net.SplitHostPort] refuses that
    address, so the attempt can only fail; with the port appended in
    brackets it is accepted.  In the call of [Exchange] with this one
    upstream the only library call is that exchange, and the call
    returns its error. *)
Theorem port_53_not_appended_after_IPv6 :
  identifier.is_url "2620:fe::fe" = false /\
  identifier.has_port "2620:fe::fe" = false /\
  (forall v, select_adapter "2620:fe::fe" v = CallUDP "2620:fe::fe") /\
  (forall v, select_adapter "2620:fe::fe" v <> CallUDP "2620:fe::fe:53") /\
  (forall c N ctx req v,
     exists cl,
       snd (run_adapter c N ctx req (select_adapter "2620:fe::fe" v)) =
       [L_ExchangeContext cl "2620:fe::fe"]) /\
  sample.SplitHostPort "2620:fe::fe" = inr "too many colons in address" /\
  sample.SplitHostPort "[2620:fe::fe]:53" = inl ("2620:fe::fe", "53") /\
  exists s,
    run [A_query 0 (sample.refusing "too many colons in address");
         A_send 0; A_recv; A_close; A_recv]
        (start NewClient Background (sample.query 1 "example.")
               ["2620:fe::fe"] true) = Some s /\
    libcalls s = [L_ExchangeContext {| dns.Timeout := 5 |} "2620:fe::fe"] /\
    returned s = Some (None, Some (Err_lib "too many colons in address")).
Proof.
  split; [reflexivity|]. split; [reflexivity|]. split; [by intros []|].
  split; [by intros []|]. split.
  { intros c N ctx req v.
    assert (select_adapter "2620:fe::fe" v = CallUDP "2620:fe::fe") as ->
      by by destruct v.
    cbn. unfold queryUDP. destruct (dns_ExchangeContext N _ req _). eauto. }
  split; [reflexivity|]. split; [reflexivity|].
  eexists. split; [vm_compute; reflexivity|]. split; reflexivity.
Qed.

(** C8: when the query is packed, the request is built and the HTTPS
    endpoint answers with a status other than 200, [queryDoH] returns no
    message and the error built from the status; the body is closed
    without being read or unpacked. *)
Theorem queryDoH_status_not_OK (c : Client) (N : Net) (req : dns.Msg)
    (urlStr : string) (tlsVerify : bool) (packed : bytes)
    (resp : http_Response) :
  Msg_Pack N req = inl packed ->
  http_NewRequest_err N urlStr = None ->
  http_Do N (doh_client c tlsVerify) (doh_request urlStr packed) = inl resp ->
  StatusCode resp <> StatusOK ->
  queryDoH c N req urlStr tlsVerify =
  ({| msg := None; err := Some (Err_DoH_status (StatusCode resp)) |},
   [L_Pack; L_NewRequest "POST" urlStr;
    L_Do (doh_client c tlsVerify) (doh_request urlStr packed) true;
    L_BodyClose]).
Proof.
  intros Hpack Hreq Hdo Hstatus. unfold queryDoH.
  rewrite Hpack, Hreq, Hdo.
  destruct (Z.eqb_spec (StatusCode resp) StatusOK) as [Heq|_]; [done|].
  reflexivity.
Qed.

Lemma queryDoH_status_not_OK_witness :
  queryDoH NewClient (sample.answering 7 "a" 503) (sample.query 1 "example.")
           "https://dns.example/dns-query" false =
  ({| msg := None; err := Some (Err_DoH_status 503) |},
   [L_Pack; L_NewRequest "POST" "https://dns.example/dns-query";
    L_Do (doh_client NewClient false)
         (doh_request "https://dns.example/dns-query" []) true;
    L_BodyClose]).
Proof.
  apply (queryDoH_status_not_OK NewClient (sample.answering 7 "a" 503)
           (sample.query 1 "example.") "https://dns.example/dns-query"
           false []
           {| StatusCode := 503; Body := [] |});
    [reflexivity | reflexivity | reflexivity | vm_compute; discriminate].
Defined.

(** With status 200 the same endpoint yields a message: the status is
    what decides. *)
Example queryDoH_status_OK :
  msg (fst (queryDoH NewClient (sample.answering 7 "a" 200)
              (sample.query 1 "example.")
              "https://dns.example/dns-query" true)) =
  Some (sample.answer_to dns.new_Msg 7 "a").
Proof. reflexivity. Qed.

End Adapters.

(** ** The exchange engine *)

Section Engine.

Import upstream.

(** A property kept by every action is kept by every schedule. *)
Lemma run_preserves (P : State -> Prop) :
  (forall a s s', P s -> exec a s = Some s' -> P s') ->
  forall sched s s', P s -> run sched s = Some s' -> P s'.
Proof.
  intros Hstep sched. induction sched as [|a sched IH]; intros s s' Hs Hrun.
  - cbn in Hrun. by simplify_eq.
  - cbn in Hrun. destruct (exec a s) as [s1|] eqn:Ha; [|done].
    eapply IH; [|exact Hrun]. eapply Hstep; eauto.
Qed.

(** Inversion of an enabled action into the transition it took. *)
Ltac exec_cases H :=
  match type of H with
  | exec ?a ?s = Some ?s' =>
    destruct a; cbn [exec] in H;
    unfold do_query, do_send, do_drop, do_close, do_recv, do_done,
           do_ctx_end in H;
    repeat case_match; simplify_eq;
    try match goal with
        | Hb : _ && false = true |- _ => by rewrite andb_false_r in Hb
        end
  end.

(** No action writes the arguments of the call. *)
Lemma exec_frame a s s' :
  exec a s = Some s' ->
  client s' = client s /\ req s' = req s /\
  upstreams s' = upstreams s /\ tlsVerify s' = tlsVerify s.
Proof. intros H. exec_cases H; done. Qed.

Lemma run_frame sched s s' :
  run sched s = Some s' ->
  client s' = client s /\ req s' = req s /\
  upstreams s' = upstreams s /\ tlsVerify s' = tlsVerify s.
Proof.
  intros H.
  apply (run_preserves
           (fun x => client x = client s /\ req x = req s /\
                     upstreams x = upstreams s /\ tlsVerify x = tlsVerify s))
    with (sched := sched) (s := s); [|done|done].
  intros a x x' (? & ? & ? & ?) Ha.
  destruct (exec_frame _ _ _ Ha) as (? & ? & ? & ?). repeat split; congruence.
Qed.

Lemma start_args c ctx r ups v :
  client (start c ctx r ups v) = c /\ req (start c ctx r ups v) = r /\
  upstreams (start c ctx r ups v) = ups /\
  tlsVerify (start c ctx r ups v) = v /\
  parent (start c ctx r ups v) = ctx.
Proof. unfold start. by destruct (length ups =? 0)%nat. Qed.

Lemma run_start_args c ctx r ups v sched s :
  run sched (start c ctx r ups v) = Some s ->
  client s = c /\ req s = r /\ upstreams s = ups /\ tlsVerify s = v.
Proof.
  intros H. destruct (run_frame _ _ _ H) as (Hc & Hr & Hu & Hv).
  destruct (start_args c ctx r ups v) as (Hc0 & Hr0 & Hu0 & Hv0 & _).
  repeat split; congruence.
Qed.

(** C9: in every state a call reaches, the upstream list of the caller
    and the query are the ones passed in; an identifier is normalised
    only in the copy a goroutine hands to its adapter. *)
Theorem Exchange_leaves_arguments (c : Client) (ctx : Context)
    (r : dns.Msg) (ups : list string) (v : bool)
    (sched : list Action) (s : State) :
  run sched (start c ctx r ups v) = Some s ->
  upstreams s = ups /\ req s = r.
Proof.
  intros H. destruct (run_start_args _ _ _ _ _ _ _ H) as (_ & ? & ? & _).
  done.
Qed.

(** The goroutine dials [9.9.9.9:53]; the slice still holds
    ["9.9.9.9"]. *)
Lemma Exchange_leaves_arguments_witness :
  exists s,
    run [A_query 0 (sample.answering 7 "a" 200); A_send 0; A_recv]
        (start NewClient Background (sample.query 1 "example.")
               ["9.9.9.9"] true) = Some s /\
    map (fun x => snd (fst x)) (invoked s) = [CallUDP "9.9.9.9:53"] /\
    upstreams s = ["9.9.9.9"] /\ req s = sample.query 1 "example.".
Proof.
  eexists. split; [vm_compute; reflexivity|]. split; [reflexivity|].
  apply (Exchange_leaves_arguments NewClient Background
           (sample.query 1 "example.") ["9.9.9.9"] true
           [A_query 0 (sample.answering 7 "a" 200); A_send 0; A_recv]).
  vm_compute. reflexivity.
Defined.

(** *** The empty upstream list *)

Lemma nothing_started_exec a s s' :
  nothing_started s -> exec a s = Some s' -> nothing_started s'.
Proof.
  intros (Hg & Hc & Hr & Hi & Hl) H. unfold nothing_started.
  exec_cases H; cbn in *;
    try (rewrite Hg in *; done); try congruence; try done.
Qed.

Lemma nothing_started_run c ctx r v sched s :
  run sched (start c ctx r [] v) = Some s -> nothing_started s.
Proof.
  intros H.
  eapply (run_preserves nothing_started nothing_started_exec); [|exact H].
  by repeat split.
Qed.

(** C2: with an empty upstream list the call has returned the
    "no upstreams provided" error before any goroutine is started, and
    whatever happens afterwards no adapter is invoked and no library
    call, hence no network call, is made. *)
Theorem Exchange_no_upstreams (c : Client) (ctx : Context) (r : dns.Msg)
    (v : bool) :
  returned (start c ctx r [] v) = Some (None, Some Err_no_upstreams) /\
  quiescent (start c ctx r [] v) = true /\
  (forall ret, Exchange c ctx r [] v ret ->
               ret = (None, Some Err_no_upstreams)) /\
  (forall sched s,
     run sched (start c ctx r [] v) = Some s ->
     goroutines s = [] /\ invoked s = [] /\ libcalls s = []).
Proof.
  split; [done|]. split; [done|]. split.
  - intros ret (sched & s & Hrun & Hret).
    destruct (nothing_started_run _ _ _ _ _ _ Hrun) as (_ & _ & Hr & _).
    congruence.
  - intros sched s Hrun.
    destruct (nothing_started_run _ _ _ _ _ _ Hrun) as (? & _ & _ & ? & ?).
    done.
Qed.

Lemma Exchange_no_upstreams_witness :
  goroutines (start NewClient sample.cancellable (sample.query 1 "example.")
                [] true) = [] /\
  invoked (start NewClient sample.cancellable (sample.query 1 "example.")
             [] true) = [] /\
  libcalls (start NewClient sample.cancellable (sample.query 1 "example.")
              [] true) = [].
Proof.
  apply (proj2 (proj2 (proj2
           (Exchange_no_upstreams NewClient sample.cancellable
              (sample.query 1 "example.") true))) []).
  reflexivity.
Defined.

(** *** Goroutine lists under the update of one goroutine *)

Lemma insert_split (gs : list Goroutine) i g g' :
  gs !! i = Some g ->
  exists l1 l2, gs = l1 ++ g :: l2 /\ <[i := g']> gs = l1 ++ g' :: l2.
Proof.
  intros H. exists (take i gs), (drop (S i) gs). split.
  - symmetry. by apply take_drop_middle.
  - apply insert_take_drop. by eapply lookup_lt_Some.
Qed.

Lemma pending_app l1 l2 : pending (l1 ++ l2) = pending l1 ++ pending l2.
Proof. apply omap_app. Qed.

Lemma not_started_app l1 l2 :
  not_started (l1 ++ l2) = (not_started l1 + not_started l2)%nat.
Proof. unfold not_started. by rewrite List.filter_app, length_app. Qed.

Lemma exited_lookup gs i g :
  forallb exited gs = true -> gs !! i = Some g -> g = G_exit.
Proof.
  intros Hall Hi. apply list_elem_of_lookup_2 in Hi.
  rewrite forallb_forall in Hall. apply list_elem_of_In in Hi.
  specialize (Hall _ Hi). by destruct g.
Qed.

(** A goroutine calls its adapter. *)
Lemma query_goroutines gs i u r :
  gs !! i = Some (G_start u) ->
  pending (<[i := G_select r]> gs) ≡ₚ r :: pending gs /\
  S (not_started (<[i := G_select r]> gs)) = not_started gs /\
  length (pending (<[i := G_select r]> gs)) = S (length (pending gs)).
Proof.
  intros H.
  destruct (insert_split gs i _ (G_select r) H) as (l1 & l2 & -> & ->).
  rewrite !pending_app, !not_started_app. cbn.
  change (omap _ l2) with (pending l2).
  change (length (List.filter starting l2)) with (not_started l2).
  split; [by rewrite Permutation_middle|]. split; [lia|].
  rewrite !length_app. cbn. lia.
Qed.

(** A goroutine leaves its select. *)
Lemma exit_goroutines gs i r :
  gs !! i = Some (G_select r) ->
  r :: pending (<[i := G_exit]> gs) ≡ₚ pending gs /\
  not_started (<[i := G_exit]> gs) = not_started gs /\
  S (length (pending (<[i := G_exit]> gs))) = length (pending gs).
Proof.
  intros H. destruct (insert_split gs i _ G_exit H) as (l1 & l2 & -> & ->).
  rewrite !pending_app, !not_started_app. cbn.
  change (omap _ l2) with (pending l2).
  change (length (List.filter starting l2)) with (not_started l2).
  split; [by rewrite Permutation_middle|]. split; [lia|].
  rewrite !length_app. cbn. lia.
Qed.

Lemma last_err_snoc rs r : last_err (rs ++ [r]) = note_err (last_err rs) r.
Proof. unfold last_err. by rewrite foldl_app. Qed.

(** [lastErr] is the error of the last result that carries one. *)
Lemma last_err_last rs : last_err rs = last (omap err rs).
Proof.
  induction rs as [|r rs IH] using rev_ind; [done|].
  rewrite last_err_snoc, omap_app, IH. unfold note_err. cbn.
  destruct (err r) as [e|]; cbn.
  - by rewrite last_snoc.
  - by rewrite app_nil_r.
Qed.

(** *** The invariant holds in every state of a call *)

Lemma Invariant_start c ctx r ups v :
  ups <> [] -> Invariant (start c ctx r ups v).
Proof.
  intros Hne. unfold start. destruct ups as [|u ups]; [done|].
  cbn [length Nat.eqb].
  assert (forall l, pending (map G_start l) = []) as Hp.
  { intros l. induction l; [done|]. cbn. done. }
  assert (forall l, not_started (map G_start l) = length l) as Hn.
  { intros l. unfold not_started. induction l; [done|]. cbn. by f_equal. }
  constructor; cbn [goroutines upstreams closer closed sent seen resultChan
                    invoked dropped returned cancelled lastErr parent].
  - by rewrite length_map.
  - done.
  - done.
  - done.
  - by rewrite Hp.
  - by rewrite Hn.
  - done.
  - done.
  - done.
Qed.

Lemma Returned_same s s' ret :
  seen s' = seen s -> closed s' = closed s -> resultChan s' = resultChan s ->
  parent s' = parent s -> dropped s' = dropped s ->
  Returned s ret -> Returned s' ret.
Proof.
  intros Hs Hc Hr Hp Hd [pre res ? ? ? ?| ? ? ? ? ?|e ? ?].
  - eapply Ret_success; eauto. congruence.
  - eapply Ret_all_tried; try congruence. rewrite Hp, Hd. done.
  - eapply Ret_ctx; eauto. congruence.
Qed.

Lemma ctx_done_return ret ch sn s : ctx_done (do_return ret ch sn s) = true.
Proof. reflexivity. Qed.

Lemma Invariant_exec a s s' :
  Invariant s -> exec a s = Some s' -> Invariant s'.
Proof.
  intros [Hlen Hcl Hclosed Hchan Hres Hcount Hdrop Hrun Hret] H.
  exec_cases H.
  - (* a goroutine calls its adapter *)
    match goal with Hg : goroutines s !! _ = Some (G_start _) |- _ =>
      pose proof (query_goroutines _ _ _ r Hg) as (Hp & Hn & _);
      pose proof Hg as Hg' end.
    constructor; cbn [goroutines upstreams closer closed sent seen resultChan
                      invoked dropped returned cancelled lastErr parent].
    + by rewrite length_insert.
    + done.
    + intros Hc. specialize (Hclosed Hc).
      by pose proof (exited_lookup _ _ _ Hclosed Hg').
    + done.
    + rewrite map_app. cbn. rewrite Hp, Hres. solve_Permutation.
    + rewrite length_app. cbn. lia.
    + done.
    + done.
    + intros ret Hr. destruct (Hret ret Hr) as [? HR]. split; [done|].
      by apply (Returned_same s).
  - (* a goroutine sends *)
    match goal with Hg : goroutines s !! _ = Some (G_select _) |- _ =>
      pose proof (exit_goroutines _ _ _ Hg) as (Hp & Hn & _);
      pose proof Hg as Hg' end.
    match goal with Hb : _ && negb (closed s) = true |- _ =>
      apply andb_true_iff in Hb as [_ Hopen];
      apply negb_true_iff in Hopen end.
    constructor; cbn [goroutines upstreams closer closed sent seen resultChan
                      invoked dropped returned cancelled lastErr parent].
    + by rewrite length_insert.
    + done.
    + congruence.
    + by rewrite Hchan, app_assoc.
    + rewrite Hres, <- Hp. solve_Permutation.
    + lia.
    + done.
    + done.
    + intros ret Hr. destruct (Hret ret Hr) as [? HR]. split; [done|].
      destruct HR as [pre res ? ? ? ?| ? ? ? ? ?|e ? ?].
      * eapply Ret_success; eauto.
      * congruence.
      * eapply Ret_ctx; eauto.
  - (* a goroutine drops its result *)
    match goal with Hg : goroutines s !! _ = Some (G_select _) |- _ =>
      pose proof (exit_goroutines _ _ _ Hg) as (Hp & Hn & _);
      pose proof Hg as Hg' end.
    assert (closed s = false) as Hopen.
    { destruct (closed s) eqn:Hc; [|done]. specialize (Hclosed eq_refl).
      by pose proof (exited_lookup _ _ _ Hclosed Hg'). }
    constructor; cbn [goroutines upstreams closer closed sent seen resultChan
                      invoked dropped returned cancelled lastErr parent].
    + by rewrite length_insert.
    + done.
    + congruence.
    + done.
    + rewrite Hres, <- Hp. solve_Permutation.
    + lia.
    + done.
    + done.
    + intros ret Hr. destruct (Hret ret Hr) as [? HR]. split; [done|].
      destruct HR as [pre res ? ? ? ?| ? ? ? ? ?|e ? ?].
      * eapply Ret_success; eauto.
      * congruence.
      * eapply Ret_ctx; eauto.
  - (* the helper closes the channel *)
    match goal with Hb : _ && _ = true |- _ =>
      apply andb_true_iff in Hb as [Hcloser Hall] end.
    assert (closed s = false) as Hopen.
    { rewrite Hcloser in Hcl. by destruct (closed s). }
    constructor; cbn [goroutines upstreams closer closed sent seen resultChan
                      invoked dropped returned cancelled lastErr parent];
      try done.
    intros ret Hr. destruct (Hret ret Hr) as [? HR]. split; [done|].
    destruct HR as [pre res ? ? ? ?| ? ? ? ? ?|e ? ?].
    * eapply Ret_success; eauto.
    * congruence.
    * eapply Ret_ctx; eauto.
  - (* the loop finds the channel closed and empty *)
    destruct (Hrun eq_refl) as (Hcan & Hfail & Hlast).
    constructor; try (intros _; apply ctx_done_return);
      cbn [do_return goroutines upstreams closer closed sent seen
           resultChan invoked dropped returned cancelled lastErr parent];
      try done; try congruence; auto.
    intros ret Hr. simplify_eq. split; [done|].
    eapply Ret_all_tried; cbn [do_return seen closed resultChan parent
                               dropped]; try done.
    + intros Hp. destruct (dropped s) as [|d ds] eqn:Hd; [done|].
      assert (ctx_done s = true) as Hcd by (apply Hdrop; congruence).
      unfold ctx_done in Hcd. rewrite Hcan, Hp in Hcd. done.
    + by rewrite Hlast.
  - (* the loop receives a success and returns it *)
    destruct (Hrun eq_refl) as (Hcan & Hfail & Hlast).
    constructor; try (intros _; apply ctx_done_return);
      cbn [do_return goroutines upstreams closer closed sent seen
           resultChan invoked dropped returned cancelled lastErr parent];
      try done.
    + by rewrite Hchan, <- app_assoc.
    + intros ret Hr. simplify_eq. split; [done|].
      eapply Ret_success; eauto.
  - (* the loop receives a result that is not a success *)
    destruct (Hrun eq_refl) as (Hcan & Hfail & Hlast).
    constructor; cbn [goroutines upstreams closer closed sent seen
                      resultChan invoked dropped returned cancelled lastErr
                      parent]; try done.
    + by rewrite Hchan, <- app_assoc.
    + intros _. split; [done|]. split.
      * rewrite forallb_app, Hfail. cbn.
        match goal with Hs : is_success _ = false |- _ => by rewrite Hs end.
      * by rewrite last_err_snoc, Hlast.
  - (* the loop finds the context done *)
    destruct (Hrun eq_refl) as (Hcan & Hfail & Hlast).
    constructor; try (intros _; apply ctx_done_return);
      cbn [do_return goroutines upstreams closer closed sent seen
           resultChan invoked dropped returned cancelled lastErr parent];
      try done.
    intros ret Hr. simplify_eq. split; [done|].
    eapply Ret_ctx; cbn [do_return parent]; eauto.
  - (* the caller's context ends *)
    constructor; cbn [goroutines upstreams closer closed sent seen
                      resultChan invoked dropped returned cancelled lastErr
                      parent]; try done.
    + intros _. unfold ctx_done. cbn. apply orb_true_r.
    + intros ret Hr. destruct (Hret ret Hr) as [? HR]. split; [done|].
      destruct HR as [pre res ? ? ? ?| ? ? ? ? ?|e0 ? ?].
      * eapply Ret_success; eauto.
      * eapply Ret_all_tried; cbn [seen closed resultChan parent dropped
                                   ctx_err]; try done.
      * congruence.
Qed.

Lemma Invariant_run c ctx r ups v sched s :
  ups <> [] -> run sched (start c ctx r ups v) = Some s -> Invariant s.
Proof.
  intros Hne Hrun.
  eapply (run_preserves Invariant Invariant_exec); [|exact Hrun].
  by apply Invariant_start.
Qed.

(** *** No send blocks, every action consumes fuel, and a state that is
    not quiescent can act *)

Lemma send_enabled s i r :
  Invariant s -> goroutines s !! i = Some (G_select r) ->
  exists s', do_send i s = Some s'.
Proof.
  intros [Hlen Hcl Hclosed Hchan Hres Hcount Hdrop Hrun Hret] Hg.
  destruct (exit_goroutines _ _ _ Hg) as (_ & _ & Hp).
  apply Permutation_length in Hres.
  rewrite length_map, !length_app in Hres.
  apply (f_equal length) in Hchan. rewrite length_app in Hchan.
  assert (closed s = false) as Hopen.
  { destruct (closed s) eqn:Hc; [|done]. specialize (Hclosed eq_refl).
    by pose proof (exited_lookup _ _ _ Hclosed Hg). }
  unfold do_send. rewrite Hg, Hopen.
  assert ((length (resultChan s) <? length (upstreams s))%nat = true) as ->.
  { apply Nat.ltb_lt. lia. }
  cbn. eauto.
Qed.

Lemma fuel_exec a s s' : exec a s = Some s' -> (fuel s' < fuel s)%nat.
Proof.
  intros H. exec_cases H; unfold fuel;
    cbn [do_return goroutines closer parent returned resultChan can_end
         ctx_err];
    try match goal with
        | Hg : goroutines s !! _ = Some (G_start _) |- context [G_select ?r] =>
          destruct (query_goroutines _ _ _ r Hg) as (_ & ? & ?)
        | Hg : goroutines s !! _ = Some (G_select _) |- _ =>
          destruct (exit_goroutines _ _ _ Hg) as (_ & ? & ?)
        end;
    try match goal with
        | Hb : _ && _ = true |- _ => apply andb_true_iff in Hb as [Hb ?];
                                      try rewrite Hb
        end;
    try match goal with Hc : resultChan s = _ |- _ => rewrite Hc end;
    try match goal with Hc : ctx_err (parent s) = _ |- _ => rewrite Hc end;
    try match goal with Hc : returned s = _ |- _ => rewrite Hc end;
    rewrite ?length_app; cbn [length andb];
    repeat match goal with
           | |- context [if ?b then _ else _] => destruct b
           | |- context [match ?o with Some _ => _ | None => _ end] =>
             destruct o
           end;
    try done; lia.
Qed.

Lemma run_fuel sched s s' :
  run sched s = Some s' -> (length sched + fuel s' <= fuel s)%nat.
Proof.
  revert s. induction sched as [|a sched IH]; intros s H; cbn in H.
  - simplify_eq. cbn. lia.
  - destruct (exec a s) as [s1|] eqn:Ha; [|done].
    apply IH in H. apply fuel_exec in Ha. cbn [length]. lia.
Qed.

Lemma fuel_start c ctx r ups v :
  (fuel (start c ctx r ups v) <= 3 * length ups + 3)%nat.
Proof.
  assert (forall l, pending (map G_start l) = []) as Hp.
  { intros l. induction l; [done|]. cbn. done. }
  assert (forall l, not_started (map G_start l) = length l) as Hn.
  { intros l. unfold not_started. induction l; [done|]. cbn. by f_equal. }
  unfold start, fuel. destruct ups as [|u ups].
  - cbn. repeat case_match; lia.
  - cbn [length Nat.eqb goroutines closer parent returned resultChan].
    rewrite Hp, Hn. cbn [length]. repeat case_match; lia.
Qed.

Lemma forallb_false_lookup {A} (f : A -> bool) (l : list A) :
  forallb f l = false -> exists i x, l !! i = Some x /\ f x = false.
Proof.
  induction l as [|x l IH]; [done|]. cbn.
  destruct (f x) eqn:Hx.
  - intros H. destruct (IH H) as (i & y & ? & ?). by exists (S i), y.
  - intros _. by exists 0%nat, x.
Qed.

Lemma progress s :
  Invariant s -> quiescent s = false ->
  exists a s', internal a = true /\ exec a s = Some s'.
Proof.
  intros Hinv Hq. pose proof Hinv as [_ Hcl _ _ _ _ _ _ _].
  unfold quiescent in Hq.
  destruct (forallb exited (goroutines s)) eqn:Hall.
  - destruct (closer s) eqn:Hcloser.
    + exists A_close. cbn. unfold do_close. rewrite Hcloser, Hall. eauto.
    + cbn in Hq. destruct (returned s) eqn:Hr; [done|].
      exists A_recv. cbn. unfold do_recv. rewrite Hr.
      destruct (resultChan s) as [|res rest].
      * destruct (closed s); [eauto|done].
      * destruct (is_success res); eauto.
  - destruct (forallb_false_lookup _ _ Hall) as (i & g & Hg & Hex).
    destruct g as [u|r|]; [| |done].
    + exists (A_query i unreachable). cbn. unfold do_query. rewrite Hg.
      destruct (run_adapter _ _ _ _ _). eauto.
    + destruct (send_enabled _ _ _ Hinv Hg) as [s' Hs'].
      exists (A_send i), s'. done.
Qed.

Lemma quiescent_returned s :
  quiescent s = true -> exists ret, returned s = Some ret.
Proof.
  unfold quiescent. intros H. apply andb_true_iff in H as [_ H].
  destruct (returned s); [eauto|done].
Qed.

(** Every call terminates: a schedule of a call on [n] upstreams has at
    most [3 * n + 3] actions, and a state of the call in which a
    goroutine is running or the loop has not returned can act. *)
Lemma Exchange_terminates c ctx r ups v sched s :
  ups <> [] ->
  run sched (start c ctx r ups v) = Some s ->
  (length sched + fuel s <= 3 * length ups + 3)%nat /\
  (quiescent s = false ->
   exists a s', internal a = true /\ exec a s = Some s').
Proof.
  intros Hne Hrun. split.
  - pose proof (run_fuel _ _ _ Hrun). pose proof (fuel_start c ctx r ups v).
    lia.
  - apply progress. by eapply Invariant_run.
Qed.

(** From every state of a call the program can run to quiescence. *)
Lemma reaches_quiescence s :
  Invariant s ->
  exists sched s', run sched s = Some s' /\ quiescent s' = true.
Proof.
  remember (fuel s) as n eqn:Hn. revert s Hn.
  induction n as [n IH] using lt_wf_ind. intros s -> Hinv.
  destruct (quiescent s) eqn:Hq.
  - exists [], s. done.
  - destruct (progress s Hinv Hq) as (a & s1 & _ & Ha).
    destruct (IH (fuel s1) (fuel_exec _ _ _ Ha) s1 eq_refl
                 (Invariant_exec _ _ _ Hinv Ha)) as (sched & s' & Hrun & Hq').
    exists (a :: sched), s'. cbn. by rewrite Ha.
Qed.

Lemma pending_exited gs : forallb exited gs = true -> pending gs = [].
Proof.
  induction gs as [|g gs IH]; [done|]. cbn. by destruct g.
Qed.

Lemma not_started_exited gs :
  forallb exited gs = true -> not_started gs = 0%nat.
Proof.
  unfold not_started. induction gs as [|g gs IH]; [done|]. cbn.
  by destruct g.
Qed.

Lemma find_skips_failures (pre rest : list result) :
  forallb (fun r => negb (is_success r)) pre = true ->
  first_success (pre ++ rest) = first_success rest.
Proof.
  unfold first_success. induction pre as [|r pre IH]; [done|]. cbn.
  destruct (is_success r); [done|]. exact IH.
Qed.

Lemma failures_have_no_success (rs : list result) r :
  forallb (fun r => negb (is_success r)) rs = true -> r ∈ rs ->
  is_success r = false.
Proof.
  intros Hall Hin. rewrite forallb_forall in Hall.
  apply list_elem_of_In in Hin. specialize (Hall _ Hin).
  by destruct (is_success r).
Qed.

Lemma outcome_elem_of x (l : list (nat * AdapterCall * result)) :
  x ∈ l -> outcome x ∈ map outcome l.
Proof. rewrite !list_elem_of_In. apply in_map. Qed.

Lemma elem_of_outcomes r (l : list (nat * AdapterCall * result)) :
  r ∈ map outcome l -> exists x, x ∈ l /\ outcome x = r.
Proof.
  rewrite list_elem_of_In, in_map_iff. intros (x & ? & ?).
  exists x. by rewrite list_elem_of_In.
Qed.

(** *** Response bodies are closed by the adapter that obtained them *)

Lemma open_bodies_app l1 l2 :
  open_bodies (l1 ++ l2) = open_bodies l1 + open_bodies l2.
Proof.
  induction l1 as [|l l1 IH]; [done|].
  destruct l as [| | |? ? []| | |]; cbn; lia.
Qed.

Lemma run_adapter_closes c N ctx q a :
  open_bodies (snd (run_adapter c N ctx q a)) = 0.
Proof.
  destruct a as [url tv|addr]; cbn.
  - unfold queryDoH. by repeat case_match.
  - unfold queryUDP. by destruct (dns_ExchangeContext N _ q addr).
Qed.

Lemma exec_closes_bodies a s s' :
  open_bodies (libcalls s) = 0 -> exec a s = Some s' ->
  open_bodies (libcalls s') = 0.
Proof.
  intros Hs H. exec_cases H; try done.
  cbn [libcalls]. rewrite open_bodies_app, Hs.
  match goal with
  | Hr : run_adapter ?c ?N ?x ?q ?a = (_, ?ls) |- _ =>
    pose proof (run_adapter_closes c N x q a) as Hc; rewrite Hr in Hc
  end.
  cbn in Hc. lia.
Qed.

Lemma run_closes_bodies c ctx r ups v sched s :
  run sched (start c ctx r ups v) = Some s -> open_bodies (libcalls s) = 0.
Proof.
  intros H.
  eapply (run_preserves (fun x => open_bodies (libcalls x) = 0)
            exec_closes_bodies); [|exact H].
  unfold start. by destruct (length ups =? 0)%nat.
Qed.

(** *** What a call with a non-empty list returns *)

(** C1, as amended: for a call with a non-empty upstream list, in a
    state in which the caller's context has not ended, if an attempt has
    succeeded and the call has returned, it returned the message of the
    first success sent to the result channel, which is the result of an
    attempt; whenever the call has returned, [cancel()] has run, so the
    derived context every attempt holds is done; a schedule has at most
    [3 * len(upstreams) + 3] actions, and a state in which a goroutine is
    still running or the call has not returned can act: every goroutine
    the call started finishes, and none is left blocked; and every
    response body an adapter obtained is closed when the adapter
    returns. *)
Theorem Exchange_returns_first_success (c : Client) (ctx : Context)
    (r : dns.Msg) (ups : list string) (v : bool)
    (sched : list Action) (s : State) :
  ups <> [] ->
  run sched (start c ctx r ups v) = Some s ->
  (ctx_err (parent s) = None ->
   (exists x, x ∈ invoked s /\ is_success (outcome x) = true) ->
   forall ret,
     returned s = Some ret ->
     exists res m,
       first_success (sent s) = Some res /\
       res ∈ map outcome (invoked s) /\
       msg res = Some m /\ ret = (Some m, None)) /\
  (forall ret, returned s = Some ret ->
               cancelled s = true /\ ctx_done s = true) /\
  (length sched + fuel s <= 3 * length ups + 3)%nat /\
  (quiescent s = false ->
   exists a s', internal a = true /\ exec a s = Some s') /\
  open_bodies (libcalls s) = 0.
Proof.
  intros Hne Hrun. pose proof (Invariant_run _ _ _ _ _ _ _ Hne Hrun) as Hinv.
  pose proof Hinv as [Hlen Hcl Hclosed Hchan Hres Hcount Hdrop Hrunning Hret].
  split; [|split; [|split; [|split]]].
  - intros Hctx (x & Hx & Hsucc) ret Hr.
    destruct (Hret ret Hr) as [_ [pre res Hseen Hpre Hok ->| Hfail Hc Hch Hd _
                                 |e He _]].
    + assert (exists m, msg res = Some m) as [m Hm].
      { unfold is_success in Hok. destruct (err res); [done|].
        destruct (msg res); [eauto|done]. }
      exists res, m. split; [|split; [|split]].
      * rewrite Hchan, Hseen, <- app_assoc.
        rewrite find_skips_failures by done. unfold first_success. cbn.
        by rewrite Hok.
      * rewrite Hres, Hchan, Hseen, !elem_of_app, list_elem_of_singleton.
        tauto.
      * done.
      * by rewrite Hm.
    + exfalso. specialize (Hclosed Hc).
      pose proof (outcome_elem_of _ _ Hx) as Hin.
      rewrite Hres, (Hd Hctx), (pending_exited _ Hclosed), Hchan, Hch in Hin.
      rewrite !app_nil_r in Hin.
      pose proof (failures_have_no_success _ _ Hfail Hin). congruence.
    + congruence.
  - intros ret Hr. destruct (Hret ret Hr) as [Hc _]. split; [done|].
    unfold ctx_done. by rewrite Hc.
  - by apply (Exchange_terminates c ctx r ups v).
  - by apply (Exchange_terminates c ctx r ups v sched).
  - by apply (run_closes_bodies c ctx r ups v sched).
Qed.

(** Two upstreams: the second answers, the first times out and is
    received first; the call returns the answer of the second, and the
    two goroutines have exited. *)
Lemma Exchange_returns_first_success_witness :
  exists s,
    run [A_query 1 (sample.answering 7 "b" 200);
         A_query 0 (sample.refusing "i/o timeout");
         A_send 0; A_send 1; A_recv; A_recv]
        (start NewClient Background (sample.query 1 "example.")
               ["1.0.0.1"; "8.8.8.8"] true) = Some s /\
    sent s =
      [failed (Err_lib "i/o timeout");
       {| msg := Some (sample.answer_to (sample.query 1 "example.") 7 "b");
          err := None |}] /\
    goroutines s = [G_exit; G_exit] /\
    (exists res m,
       first_success (sent s) = Some res /\
       res ∈ map outcome (invoked s) /\
       msg res = Some m /\
       (Some (sample.answer_to (sample.query 1 "example.") 7 "b"),
        @None error) = (Some m, None)) /\
    (forall ret, returned s = Some ret ->
                 cancelled s = true /\ ctx_done s = true) /\
    (6 + fuel s <= 3 * 2 + 3)%nat /\
    (quiescent s = false ->
     exists a s', internal a = true /\ exec a s = Some s') /\
    open_bodies (libcalls s) = 0.
Proof.
  eexists. split; [vm_compute; reflexivity|]. split; [reflexivity|].
  split; [reflexivity|].
  destruct (Exchange_returns_first_success NewClient Background
              (sample.query 1 "example.") ["1.0.0.1"; "8.8.8.8"] true
              [A_query 1 (sample.answering 7 "b" 200);
               A_query 0 (sample.refusing "i/o timeout");
               A_send 0; A_send 1; A_recv; A_recv] _
              ltac:(discriminate) ltac:(vm_compute; reflexivity))
    as (Hfirst & Hrest).
  split; [|exact Hrest].
  apply Hfirst; [reflexivity| |reflexivity].
  eexists. split; [apply list_elem_of_here|reflexivity].
Defined.

(** C1, as stated, fails when the caller's context ends: the only
    attempt succeeds, the caller cancels before the goroutine sends, and
    the receive loop returns the context's error, not the response. *)
Lemma Exchange_cancelled_despite_success :
  exists s,
    run [A_query 0 (sample.answering 7 "a" 200); A_ctx_end Canceled; A_done]
        (start NewClient sample.cancellable (sample.query 1 "example.")
               ["1.1.1.1"] true) = Some s /\
    map outcome (invoked s) =
      [{| msg := Some (sample.answer_to (sample.query 1 "example.") 7 "a");
          err := None |}] /\
    returned s = Some (None, Some (Err_ctx Canceled)).
Proof. eexists. split; [vm_compute; reflexivity|]. split; reflexivity. Qed.

(** C3, as amended: for a call with a non-empty upstream list, in a
    state in which the caller's context has not ended, if the call has
    returned and no attempt was a success, every upstream was attempted,
    every result was received, no message is returned, and the error
    returned is the last error among the results in the order of their
    arrival, or "all upstreams failed" when no result carries an
    error. *)
Theorem Exchange_all_attempts_failed (c : Client) (ctx : Context)
    (r : dns.Msg) (ups : list string) (v : bool)
    (sched : list Action) (s : State)
    (ret : option dns.Msg * option error) :
  ups <> [] ->
  run sched (start c ctx r ups v) = Some s ->
  ctx_err (parent s) = None ->
  returned s = Some ret ->
  (forall x, x ∈ invoked s -> is_success (outcome x) = false) ->
  ret = (None,
         Some (match last (omap err (sent s)) with
               | Some e => e
               | None => Err_all_upstreams_failed
               end)) /\
  seen s = sent s /\
  sent s ≡ₚ map outcome (invoked s) /\
  length (invoked s) = length ups.
Proof.
  intros Hne Hrun Hctx Hr Hall.
  pose proof (Invariant_run _ _ _ _ _ _ _ Hne Hrun) as Hinv.
  pose proof Hinv as [Hlen Hcl Hclosed Hchan Hres Hcount Hdrop Hrunning Hret].
  destruct (run_start_args _ _ _ _ _ _ _ Hrun) as (_ & _ & Hups & _).
  destruct (Hret ret Hr) as [_ [pre res Hseen Hpre Hok ->| Hfail Hc Hch Hd ->
                               |e He _]].
  - exfalso.
    assert (res ∈ map outcome (invoked s)) as Hin.
    { rewrite Hres, Hchan, Hseen, !elem_of_app, list_elem_of_singleton.
      tauto. }
    apply elem_of_outcomes in Hin as (x & Hx & <-).
    specialize (Hall x Hx). congruence.
  - specialize (Hclosed Hc).
    rewrite (Hd Hctx), (pending_exited _ Hclosed), !app_nil_r in Hres.
    rewrite Hch, app_nil_r in Hchan.
    rewrite (not_started_exited _ Hclosed), Nat.add_0_r in Hcount.
    rewrite <- Hchan. split; [|split; [done|split; [done|congruence]]].
    by rewrite last_err_last.
  - congruence.
Qed.

(** Two upstreams, both refused: the error returned is the one that
    arrived last. *)
Lemma Exchange_all_attempts_failed_witness :
  exists s,
    run [A_query 0 (sample.refusing "connection refused");
         A_query 1 (sample.refusing "i/o timeout");
         A_send 1; A_send 0; A_recv; A_recv; A_close; A_recv]
        (start NewClient Background (sample.query 1 "example.")
               ["1.0.0.1"; "8.8.8.8"] true) = Some s /\
    (@None dns.Msg, Some (Err_lib "connection refused")) =
    (None,
     Some (match last (omap err (sent s)) with
           | Some e => e
           | None => Err_all_upstreams_failed
           end)) /\
    seen s = sent s /\
    sent s ≡ₚ map outcome (invoked s) /\
    length (invoked s) = 2%nat.
Proof.
  eexists. split; [vm_compute; reflexivity|].
  apply (Exchange_all_attempts_failed NewClient Background
           (sample.query 1 "example.") ["1.0.0.1"; "8.8.8.8"] true
           [A_query 0 (sample.refusing "connection refused");
            A_query 1 (sample.refusing "i/o timeout");
            A_send 1; A_send 0; A_recv; A_recv; A_close; A_recv]).
  - discriminate.
  - vm_compute. reflexivity.
  - reflexivity.
  - reflexivity.
  - intros x Hx. vm_compute in Hx.
    apply list_elem_of_In in Hx. cbn in Hx.
    destruct Hx as [<-|[<-|[]]]; reflexivity.
Defined.

(** C3, as stated, fails when the caller's context ends: the only
    attempt is refused and its error is received; the caller cancels
    before the channel is closed, and the error returned is the
    context's, neither the attempt's nor "all upstreams failed". *)
Lemma Exchange_cancelled_after_failure :
  exists s,
    run [A_query 0 (sample.refusing "connection refused"); A_send 0; A_recv;
         A_ctx_end Canceled; A_done]
        (start NewClient sample.cancellable (sample.query 1 "example.")
               ["1.1.1.1"] true) = Some s /\
    map outcome (invoked s) = [failed (Err_lib "connection refused")] /\
    lastErr s = Some (Err_lib "connection refused") /\
    returned s = Some (None, Some (Err_ctx Canceled)).
Proof.
  eexists. split; [vm_compute; reflexivity|]. repeat split; reflexivity.
Qed.

End Engine.

(** ** The request router *)

Section Router.

Import upstream.

Context {IP : Type}.
Variable ParseIP : string -> option IP.
Variable IPString : IP -> string.
Variable SplitHostPort : string -> (string * string) + string.

Local Abbreviation route := (server.route ParseIP IPString SplitHostPort).
Local Abbreviation ServeDNS :=
  (server.ServeDNS ParseIP IPString SplitHostPort).

(** [Exchange] returns a message or an error, never neither. *)
Lemma Exchange_result c ctx r ups v ret :
  Exchange c ctx r ups v ret ->
  (exists m, ret = (Some m, None)) \/ (exists e, ret = (None, Some e)).
Proof.
  intros Hex. destruct ups as [|u ups].
  - destruct Hex as (sched & s & Hrun & Hr).
    destruct (nothing_started_run _ _ _ _ _ _ Hrun) as (_ & _ & Hr' & _).
    right. exists Err_no_upstreams. congruence.
  - destruct Hex as (sched & s & Hrun & Hr).
    assert (u :: ups <> []) as Hne by done.
    pose proof (Invariant_run _ _ _ _ _ _ _ Hne Hrun) as [_ _ _ _ _ _ _ _ Hret].
    destruct (Hret ret Hr) as [_ [pre res _ _ Hok ->| _ _ _ _ ->|e _ ->]];
      [|eauto|eauto].
    left. unfold is_success in Hok. destruct (err res); [done|].
    destruct (msg res); [eauto|done].
Qed.

(** Every call can return. *)
Lemma Exchange_returns c ctx r ups v : exists ret, Exchange c ctx r ups v ret.
Proof.
  destruct ups as [|u ups].
  - exists (None, Some Err_no_upstreams), [], (start c ctx r [] v). done.
  - assert (u :: ups <> []) as Hne by done.
    destruct (reaches_quiescence _ (Invariant_start c ctx r _ v Hne))
      as (sched & s & Hrun & Hq).
    destruct (quiescent_returned _ Hq) as [ret Hr].
    exists ret, sched, s. done.
Qed.

(** What [ServeDNS] writes for a value [Exchange] returned. *)
Lemma respond_Exchange c ctx q ups v r ret :
  Exchange c ctx q ups v ret ->
  exists m, server.respond r ret = server.Wrote m /\ dns.Id m = dns.Id r.
Proof.
  intros Hex.
  destruct (Exchange_result _ _ _ _ _ _ Hex) as [[m ->]|[e ->]];
    eexists; (split; [reflexivity|done]).
Qed.

(** C4: whatever [ServeDNS] writes to the client, the answer of an
    upstream or the server-failure reply it builds when [Exchange]
    fails, carries the transaction identifier of the query; it writes
    nothing only when the query is dropped, and the assignment of the
    identifier never meets a nil response. *)
Theorem ServeDNS_response_Id (s : server.Server) (remoteAddr : string)
    (r : dns.Msg) (out : server.Outcome) :
  ServeDNS s remoteAddr r out ->
  match out with
  | server.Dropped => route s remoteAddr = None
  | server.Wrote m => dns.Id m = dns.Id r
  | server.Panicked => False
  end.
Proof.
  intros [Hroute|ups v ret Hroute Hex]; [done|].
  destruct (respond_Exchange _ _ _ _ _ r _ Hex) as (m & -> & Hid). done.
Qed.

(** The reply built on failure is a server failure for the query. *)
Lemma respond_failure (r : dns.Msg) (resp : option dns.Msg) (e : error) :
  exists m, server.respond r (resp, Some e) = server.Wrote m /\
            dns.Id m = dns.Id r /\ dns.Rcode m = dns.RcodeServerFailure /\
            dns.Response m = true.
Proof. eexists. split; [reflexivity|]. done. Qed.

(** C10: when the remote address splits into host and port and the host
    is not an IP address, the lookup in the device index is made with a
    nil address and finds nothing, [Exchange] is called with the global
    upstream list and TLS verification on, the query is not dropped, and
    every outcome of [ServeDNS] is a message written to the client under
    the identifier of the query; the call to [Exchange] returns under
    every schedule, so there is such an outcome. *)
Theorem ServeDNS_unparsable_host (s : server.Server) (remoteAddr : string)
    (r : dns.Msg) (host port : string) :
  SplitHostPort remoteAddr = inl (host, port) ->
  ParseIP host = None ->
  device.Get IPString (server.devManager s) (ParseIP host) = None /\
  route s remoteAddr = Some (config.Upstreams (server.cfg s), true) /\
  (forall out,
     ServeDNS s remoteAddr r out ->
     exists ret m,
       Exchange (server.client s) Background r
                (config.Upstreams (server.cfg s)) true ret /\
       out = server.respond r ret /\
       out = server.Wrote m /\ dns.Id m = dns.Id r) /\
  (exists out, ServeDNS s remoteAddr r out) /\
  (forall sched st,
     run sched (start (server.client s) Background r
                      (config.Upstreams (server.cfg s)) true) = Some st ->
     (length sched <= 3 * length (config.Upstreams (server.cfg s)) + 3)%nat /\
     (returned st = None ->
      exists a st', internal a = true /\ exec a st = Some st')).
Proof.
  intros Hsplit Hparse.
  assert (route s remoteAddr = Some (config.Upstreams (server.cfg s), true))
    as Hroute.
  { unfold server.route. by rewrite Hsplit, Hparse. }
  split; [by rewrite Hparse|]. split; [done|]. split; [|split].
  - intros out [Hr|ups v ret Hr Hex]; [congruence|].
    rewrite Hroute in Hr. simplify_eq.
    destruct (respond_Exchange _ _ _ _ _ r _ Hex) as (m & Hm & Hid).
    exists ret, m. done.
  - destruct (Exchange_returns (server.client s) Background r
                (config.Upstreams (server.cfg s)) true) as [ret Hex].
    exists (server.respond r ret). by eapply server.Serve_answered.
  - intros sched st Hrun. split.
    + pose proof (run_fuel _ _ _ Hrun).
      pose proof (fuel_start (server.client s) Background r
                    (config.Upstreams (server.cfg s)) true). lia.
    + intros Hnone.
      destruct (config.Upstreams (server.cfg s)) as [|u ups] eqn:Hu.
      * destruct (nothing_started_run _ _ _ _ _ _ Hrun) as (_ & _ & Hr & _).
        congruence.
      * assert (u :: ups <> []) as Hne by done.
        apply progress; [by eapply Invariant_run|].
        unfold quiescent. rewrite Hnone. by rewrite andb_false_r.
Qed.

End Router.

(** ** The scenarios of the specification on concrete inputs *)

Section Scenarios.

Import upstream.

Local Abbreviation ServeDNS :=
  (server.ServeDNS sample.ParseIP sample.IPString sample.SplitHostPort).
Local Abbreviation route :=
  (server.route sample.ParseIP sample.IPString sample.SplitHostPort).

(** A query from [192.168.0.23] goes to the upstream of the device
    [test] alone; the answer comes back under the upstream's identifier
    7 and is written under the query's identifier 4242. *)
Lemma ServeDNS_response_Id_witness :
  exists m,
    ServeDNS sample.two_devices_server "192.168.0.23:5353"
             (sample.query 4242 "example.") (server.Wrote m) /\
    m = sample.answer_to (sample.query 4242 "example.") 4242 "a" /\
    dns.Id m = dns.Id (sample.query 4242 "example.").
Proof.
  assert (ServeDNS sample.two_devices_server "192.168.0.23:5353"
            (sample.query 4242 "example.")
            (server.Wrote
               (sample.answer_to (sample.query 4242 "example.") 4242 "a")))
    as H.
  { apply (server.Serve_answered sample.ParseIP sample.IPString
             sample.SplitHostPort sample.two_devices_server
             "192.168.0.23:5353" (sample.query 4242 "example.")
             ["1.0.0.2"] false
             (Some (sample.answer_to (sample.query 4242 "example.") 7 "a"),
              None)).
    - vm_compute. reflexivity.
    - exists [A_query 0 (sample.answering 7 "a" 200); A_send 0; A_recv].
      eexists. split; [vm_compute; reflexivity|reflexivity]. }
  eexists. split; [exact H|]. split; [reflexivity|].
  exact (ServeDNS_response_Id sample.ParseIP sample.IPString
           sample.SplitHostPort _ _ _ _ H).
Defined.

(** The third scenario: the upstream of the device is unreachable and
    the client receives a server failure under the query's identifier. *)
Example ServeDNS_all_unreachable :
  ServeDNS sample.two_devices_server "192.168.0.23:5353"
           (sample.query 4242 "example.")
           (server.Wrote
              {| dns.Id := 4242; dns.Response := true;
                 dns.Opcode := dns.OpcodeQuery;
                 dns.RecursionDesired := true;
                 dns.CheckingDisabled := false;
                 dns.Rcode := dns.RcodeServerFailure;
                 dns.Question := ["example."]; dns.Answer := [] |}).
Proof.
  apply (server.Serve_answered sample.ParseIP sample.IPString
           sample.SplitHostPort sample.two_devices_server
           "192.168.0.23:5353" (sample.query 4242 "example.")
           ["1.0.0.2"] false (None, Some (Err_lib "i/o timeout"))).
  - vm_compute. reflexivity.
  - exists [A_query 0 unreachable; A_send 0; A_recv; A_close; A_recv].
    eexists. split; [vm_compute; reflexivity|reflexivity].
Qed.

(** A link-local client: the host carries a zone and is no IP address
    for [net.ParseIP]; the query is routed to the global upstreams. *)
Lemma ServeDNS_unparsable_host_witness :
  sample.SplitHostPort "[fe80::1%eth0]:5353" = inl ("fe80::1%eth0", "5353") /\
  sample.ParseIP "fe80::1%eth0" = None /\
  route sample.two_devices_server "[fe80::1%eth0]:5353" =
    Some (["1.0.0.1"; "8.8.8.8"], true) /\
  exists out,
    ServeDNS sample.two_devices_server "[fe80::1%eth0]:5353"
             (sample.query 4242 "example.") out.
Proof.
  split; [reflexivity|]. split; [reflexivity|].
  destruct (ServeDNS_unparsable_host sample.ParseIP sample.IPString
              sample.SplitHostPort sample.two_devices_server
              "[fe80::1%eth0]:5353" (sample.query 4242 "example.")
              "fe80::1%eth0" "5353" eq_refl eq_refl)
    as (_ & Hroute & _ & Hout & _).
  split; [exact Hroute|exact Hout].
Defined.

(** The second scenario: the device's upstream is dialled on port 53,
    and a DoH upstream of that device would use the insecure client. *)
Example device_test_routing :
  route sample.two_devices_server "192.168.0.23:5353" =
    Some (["1.0.0.2"], false) /\
  select_adapter "1.0.0.2" false = CallUDP "1.0.0.2:53" /\
  InsecureSkipVerify (doh_client NewClient false) = true /\
  InsecureSkipVerify (doh_client NewClient true) = false.
Proof. split; [vm_compute; reflexivity|]. repeat split; reflexivity. Qed.

(** The lookup of the address both devices declare, and of one that no
    device declares. *)
Example Get_two_devices :
  device.Get sample.IPString (server.devManager sample.two_devices_server)
             (sample.ParseIP "192.168.0.23") =
    Some (device.mkDevice "test" ["1.0.0.2"] false) /\
  device.Get sample.IPString (server.devManager sample.two_devices_server)
             (sample.ParseIP "192.168.0.24") = None.
Proof. split; vm_compute; reflexivity. Qed.

End Scenarios.

(** * Further properties of the code *)

(** ** The configuration loader *)

Section Loader.

Import configfile.

Context {FS : Type}.
Variable O : OS FS.

Lemma read_config_calls fs path res calls :
  read_config O fs path = (res, calls) ->
  (forall p d perm, C_WriteFile p d perm ∉ calls) /\
  (forall p, C_ReadFile p ∈ calls -> p = path).
Proof.
  unfold read_config. intros H.
  repeat case_match; simplify_eq; split; intros *;
    rewrite ?elem_of_cons, ?elem_of_nil; intuition congruence.
Qed.

(** X1: whatever the file system does, [Load] writes at most the default
    template, with mode 0644, to the path it was given, and only after
    [os.Stat] reported the file missing; when [os.Stat] reports anything
    else, an existing file included, the file system is left as it was;
    it reads no other path, and when the creation fails it does not
    read at all. *)
Theorem Load_writes_only_the_missing_default (fs : FS) (path : string) :
  let '(res, fs', calls) := Load O fs path in
  (forall p d perm,
     C_WriteFile p d perm ∈ calls ->
     p = path /\ d = DefaultConfigTemplate /\ perm = 420 /\
     IsNotExist (os_Stat O fs path) = true /\
     fs' = fst (os_WriteFile O fs path DefaultConfigTemplate 420)) /\
  (IsNotExist (os_Stat O fs path) = false ->
   fs' = fs /\ forall p d perm, C_WriteFile p d perm ∉ calls) /\
  (forall p, C_ReadFile p ∈ calls -> p = path) /\
  (forall e, res = inr (Err_create e) -> forall p, C_ReadFile p ∉ calls).
Proof.
  unfold Load. destruct (IsNotExist (os_Stat O fs path)) eqn:Hstat.
  - destruct (os_WriteFile O fs path DefaultConfigTemplate 420)
      as [fs1 [e|]] eqn:Hw.
    + split; [|split; [done|split]].
      * intros p d perm Hin. rewrite !elem_of_cons, elem_of_nil in Hin.
        destruct Hin as [?|[?|[]]]; [done|by simplify_eq].
      * intros p Hp. rewrite !elem_of_cons, elem_of_nil in Hp.
        by destruct Hp as [?|[?|[]]].
      * intros e0 _ p Hp. rewrite !elem_of_cons, elem_of_nil in Hp.
        by destruct Hp as [?|[?|[]]].
    + destruct (read_config O fs1 path) as [res calls] eqn:Hr.
      destruct (read_config_calls _ _ _ _ Hr) as [Hnw Hrd].
      assert (forall e, res <> inr (Err_create e)) as Hne.
      { unfold read_config in Hr. intros e. repeat case_match; by simplify_eq. }
      split; [|split; [done|split]].
      * intros p d perm Hin. cbn in Hin.
        rewrite !elem_of_cons in Hin.
        destruct Hin as [?|[?|Hin]]; [done|by simplify_eq|].
        by apply Hnw in Hin.
      * intros p Hin. cbn in Hin. rewrite !elem_of_cons in Hin.
        destruct Hin as [?|[?|Hin]]; [done|done|]. by apply Hrd.
      * intros e Hres. by apply Hne in Hres.
  - destruct (read_config O fs path) as [res calls] eqn:Hr.
    destruct (read_config_calls _ _ _ _ Hr) as [Hnw Hrd].
    assert (forall e, res <> inr (Err_create e)) as Hne.
    { unfold read_config in Hr. intros e. repeat case_match; by simplify_eq. }
    split; [|split; [|split]].
    + intros p d perm Hin. rewrite elem_of_cons in Hin.
      destruct Hin as [?|Hin]; [done|]. by apply Hnw in Hin.
    + intros _. split; [done|]. intros p d perm Hin.
      rewrite elem_of_cons in Hin. destruct Hin as [?|Hin]; [done|].
      by apply Hnw in Hin.
    + intros p Hin. rewrite elem_of_cons in Hin.
      destruct Hin as [?|Hin]; [done|]. by apply Hrd.
    + intros e Hres. by apply Hne in Hres.
Qed.

(** X2: on a file system where a file just written is no longer
    reported missing, loading again after a successful [Load] returns
    the same configuration, writes nothing and leaves the file system
    as the first call left it. *)
Theorem Load_again_is_stable (fs fs' : FS) (path : string)
    (cfg : config.Config) (calls : list Call) :
  (forall fs0 p d perm fs1,
     os_WriteFile O fs0 p d perm = (fs1, None) ->
     IsNotExist (os_Stat O fs1 p) = false) ->
  Load O fs path = (inl cfg, fs', calls) ->
  exists calls',
    Load O fs' path = (inl cfg, fs', calls') /\
    forall p d perm, C_WriteFile p d perm ∉ calls'.
Proof.
  intros Hlaw. unfold Load.
  destruct (IsNotExist (os_Stat O fs path)) eqn:Hstat.
  - destruct (os_WriteFile O fs path DefaultConfigTemplate 420)
      as [fs1 [e|]] eqn:Hw; [done|].
    destruct (read_config O fs1 path) as [res cs] eqn:Hr.
    intros ?; simplify_eq. rewrite (Hlaw _ _ _ _ _ Hw), Hr.
    eexists. split; [done|]. intros p d perm Hin.
    rewrite elem_of_cons in Hin. destruct Hin as [?|Hin]; [done|].
    by apply (read_config_calls _ _ _ _ Hr) in Hin.
  - destruct (read_config O fs path) as [res cs] eqn:Hr.
    intros ?; simplify_eq. rewrite Hstat, Hr.
    eexists. split; [done|]. intros p d perm Hin.
    rewrite elem_of_cons in Hin. destruct Hin as [?|Hin]; [done|].
    by apply (read_config_calls _ _ _ _ Hr) in Hin.
Qed.

(** The first start: when the file is reported missing, the template is written
    without error and the file then reads back as written, [Load]
    returns what the parser makes of the default template, a
    configuration or a parse error, and leaves the file system the write
    produced. *)
Theorem Load_creates_the_default (fs fs1 : FS) (path : string) :
  IsNotExist (os_Stat O fs path) = true ->
  os_WriteFile O fs path DefaultConfigTemplate 420 = (fs1, None) ->
  os_ReadFile O fs1 path = inl DefaultConfigTemplate ->
  fst (Load O fs path) =
  (match yaml_Unmarshal O DefaultConfigTemplate with
   | inl cfg => inl cfg
   | inr e => inr (Err_parse e)
   end, fs1).
Proof.
  intros Hstat Hw Hr. unfold Load, read_config. rewrite Hstat, Hw, Hr.
  by destruct (yaml_Unmarshal O DefaultConfigTemplate).
Qed.

End Loader.

Lemma Load_again_is_stable_witness :
  exists calls',
    configfile.Load sample_fs.files
      (<["config.yaml" := configfile.DefaultConfigTemplate]> ∅)
      "config.yaml" =
    (inl sample_fs.parsed_template,
     <["config.yaml" := configfile.DefaultConfigTemplate]> ∅, calls') /\
    forall p d perm, configfile.C_WriteFile p d perm ∉ calls'.
Proof.
  apply (Load_again_is_stable sample_fs.files ∅ _ "config.yaml" _
           [configfile.C_Stat "config.yaml";
            configfile.C_WriteFile "config.yaml"
              configfile.DefaultConfigTemplate 420;
            configfile.C_ReadFile "config.yaml";
            configfile.C_Unmarshal configfile.DefaultConfigTemplate]).
  - intros fs0 p d perm fs1 Hw.
    unfold sample_fs.files, configfile.os_WriteFile in Hw.
    injection Hw as <-. unfold sample_fs.files, configfile.os_Stat.
    unfold sample_fs.FS in *. by rewrite lookup_insert_eq.
  - vm_compute. reflexivity.
Defined.

Lemma Load_creates_the_default_witness :
  fst (configfile.Load sample_fs.files ∅ "config.yaml") =
  (inl sample_fs.parsed_template,
   <["config.yaml" := configfile.DefaultConfigTemplate]> ∅).
Proof.
  apply (Load_creates_the_default sample_fs.files ∅
           (<["config.yaml" := configfile.DefaultConfigTemplate]> ∅)
           "config.yaml"); reflexivity.
Defined.

(** ** The device index, further *)

Section DeviceIndexFurther.

Context {IP : Type}.
Variable ParseIP : string -> option IP.
Variable IPString : IP -> string.

Local Abbreviation add_ips := (device.add_ips ParseIP IPString).
Local Abbreviation add_devices := (device.add_devices ParseIP IPString).
Local Abbreviation NewManager := (device.NewManager ParseIP IPString).
Local Abbreviation Get := (device.Get IPString).
Local Abbreviation declares := (device.declares ParseIP IPString).

(** The entry at [key] after the outer loop, as a fold over the devices:
    each device that declares [key] replaces what was there. *)
Lemma add_devices_lookup_fold ds (m : gmap string device.Device) key :
  add_devices ds m !! key =
  foldl (fun acc d => if declares key d then Some (device.dev_of d) else acc)
        (m !! key) ds.
Proof.
  revert m. induction ds as [|d ds IH]; intros m; [done|].
  unfold device.add_devices. cbn [foldl].
  change (foldl _ ?m0 ds) with (add_devices ds m0) at 1.
  rewrite IH. f_equal. apply add_ips_lookup.
Qed.

(** Once a later device declares [key], what was there before does not
    matter. *)
Lemma later_declaration_wins key ds (acc1 acc2 : option device.Device) :
  existsb (declares key) ds = true ->
  foldl (fun acc d => if declares key d then Some (device.dev_of d) else acc)
        acc1 ds =
  foldl (fun acc d => if declares key d then Some (device.dev_of d) else acc)
        acc2 ds.
Proof.
  revert acc1 acc2. induction ds as [|d ds IH]; intros acc1 acc2; [done|].
  cbn [existsb foldl]. destruct (declares key d); [done|].
  cbn [orb]. apply IH.
Qed.

(** X3: adding a device at the end of the configuration changes the
    lookup of exactly the addresses it declares: those now yield its
    policy, every other address yields what it yielded before. *)
Theorem NewManager_append_device (ups : list string)
    (ds : list config.Device.t) (d : config.Device.t) (ip : IP) :
  Get (NewManager {| config.Upstreams := ups; config.Devices := ds ++ [d] |})
      (Some ip) =
  if declares (IPString ip) d then Some (device.dev_of d)
  else Get (NewManager {| config.Upstreams := ups; config.Devices := ds |})
           (Some ip).
Proof.
  unfold device.Get, device.NewManager. cbn [device.ipMap config.Devices].
  rewrite !add_devices_lookup_fold, foldl_app. done.
Qed.

(** X4: a configured device each of whose declared addresses is declared
    again by a later device, in particular a device none of whose IP
    strings parses, leaves no trace: the index is the one built without
    it. *)
Theorem NewManager_shadowed_device (ups : list string)
    (before after : list config.Device.t) (d : config.Device.t) :
  (forall key, declares key d = true ->
               existsb (declares key) after = true) ->
  NewManager {| config.Upstreams := ups;
                config.Devices := before ++ d :: after |} =
  NewManager {| config.Upstreams := ups; config.Devices := before ++ after |}.
Proof.
  intros Hshadow. unfold device.NewManager. cbn [config.Devices]. f_equal.
  apply map_eq. intros key.
  rewrite !add_devices_lookup_fold, !foldl_app. cbn [foldl].
  destruct (declares key d) eqn:Hd; [|done].
  apply later_declaration_wins. by apply Hshadow.
Qed.

End DeviceIndexFurther.

(** The first device of [sample.two_devices] declares one address, which
    the second declares again. *)
Lemma NewManager_shadowed_device_witness :
  device.NewManager sample.ParseIP sample.IPString sample.two_devices =
  device.NewManager sample.ParseIP sample.IPString
    {| config.Upstreams := ["1.0.0.1"; "8.8.8.8"];
       config.Devices :=
         [ {| config.Device.Name := "test";
              config.Device.IPs := ["not-an-ip"; "192.168.0.23"];
              config.Device.Upstreams := ["1.0.0.2"];
              config.Device.TLSVerify := Some false |} ] |}.
Proof.
  apply (NewManager_shadowed_device sample.ParseIP sample.IPString
           ["1.0.0.1"; "8.8.8.8"] []
           [ {| config.Device.Name := "test";
                config.Device.IPs := ["not-an-ip"; "192.168.0.23"];
                config.Device.Upstreams := ["1.0.0.2"];
                config.Device.TLSVerify := Some false |} ]).
  intros key Hkey. unfold device.declares in *.
  cbn [existsb config.Device.IPs] in *.
  change (sample.ParseIP "192.168.0.23") with (Some "192.168.0.23") in *.
  change (sample.ParseIP "not-an-ip") with (@None string) in *.
  cbn [orb] in *. rewrite Hkey. reflexivity.
Defined.

(** ** The transport adapters, further *)

Section AdaptersFurther.

Import upstream.

(** X5: [queryDoH] returns a message exactly when the query was packed,
    the request was built, the endpoint answered with status 200, the
    body was read and it unpacked to that message; and it returns a
    message or an error, never both and never neither. *)
Theorem queryDoH_message_iff (c : Client) (N : Net) (req : dns.Msg)
    (urlStr : string) (tlsVerify : bool) (m : dns.Msg) :
  (msg (fst (queryDoH c N req urlStr tlsVerify)) = Some m <->
   exists packed resp body,
     Msg_Pack N req = inl packed /\
     http_NewRequest_err N urlStr = None /\
     http_Do N (doh_client c tlsVerify) (doh_request urlStr packed)
       = inl resp /\
     StatusCode resp = StatusOK /\
     io_ReadAll N (Body resp) = inl body /\
     Msg_Unpack N body = inl m) /\
  (err (fst (queryDoH c N req urlStr tlsVerify)) = None <->
   msg (fst (queryDoH c N req urlStr tlsVerify)) <> None).
Proof.
  assert (forall (P : Prop) (r : result),
            msg r = None -> err r <> None -> (P -> False) ->
            (msg r = Some m <-> P) /\ (err r = None <-> msg r <> None))
    as Hfail.
  { intros P r Hm He HP. rewrite Hm. by split; split. }
  unfold queryDoH.
  destruct (Msg_Pack N req) as [packed|e] eqn:Hpack; cycle 1.
  { apply Hfail; [done|done|]. intros (? & ? & ? & ? & _). congruence. }
  destruct (http_NewRequest_err N urlStr) as [e|] eqn:Hreq.
  { apply Hfail; [done|done|]. intros (? & ? & ? & _ & ? & _). congruence. }
  destruct (http_Do N _ _) as [resp|e] eqn:Hdo; cycle 1.
  { apply Hfail; [done|done|].
    intros (? & ? & ? & ? & _ & ? & _). congruence. }
  destruct (Z.eqb_spec (StatusCode resp) StatusOK) as [Hok|Hbad]; cycle 1.
  { apply Hfail; [done|done|].
    intros (? & ? & ? & ? & _ & ? & ? & _). congruence. }
  destruct (io_ReadAll N (Body resp)) as [body|e] eqn:Hread; cycle 1.
  { apply Hfail; [done|done|].
    intros (? & ? & ? & ? & _ & ? & _ & ? & _). congruence. }
  destruct (Msg_Unpack N body) as [m0|e] eqn:Hun; cycle 1.
  { apply Hfail; [done|done|].
    intros (? & ? & ? & ? & _ & ? & _ & ? & ?). congruence. }
  cbn. split; [|done]. split.
  - intros [= <-]. exists packed, resp, body. done.
  - intros (? & ? & ? & ? & _ & ? & _ & ? & ?). congruence.
Qed.

(** X6: whatever the network does, [queryDoH] sends at most one request
    and none when the query cannot be packed or the request cannot be
    built; the request is a POST to the upstream's URL whose body is the
    packed query, with content type and accepted type
    [application/dns-message], through the pre-built client chosen by
    the flag; a response body obtained is closed before the return; and
    the clients [NewClient] builds skip certificate verification exactly
    when the flag is false. *)
Theorem queryDoH_one_request (c : Client) (N : Net) (req : dns.Msg)
    (urlStr : string) (tlsVerify : bool) :
  let ls := snd (queryDoH c N req urlStr tlsVerify) in
  (length (List.filter
             (fun l => match l with L_Do _ _ _ => true | _ => false end) ls)
   <= 1)%nat /\
  (forall cl rq answered,
     L_Do cl rq answered ∈ ls ->
     cl = doh_client c tlsVerify /\
     Method rq = "POST" /\ URL rq = urlStr /\
     Msg_Pack N req = inl (ReqBody rq) /\
     Header rq = [("Accept", "application/dns-message");
                  ("Content-Type", "application/dns-message")]) /\
  ((forall packed, Msg_Pack N req <> inl packed) \/
   http_NewRequest_err N urlStr <> None ->
   forall cl rq answered, L_Do cl rq answered ∉ ls) /\
  open_bodies ls = 0 /\
  InsecureSkipVerify (doh_client NewClient tlsVerify) = negb tlsVerify.
Proof.
  cbv zeta. split; [|split; [|split; [|split]]].
  - unfold queryDoH. repeat case_match; cbn; lia.
  - intros cl rq answered. unfold queryDoH.
    repeat case_match; cbn [snd app];
      rewrite ?elem_of_cons, ?elem_of_nil; intros Hin;
      repeat (destruct Hin as [Hin|Hin]; try done); by simplify_eq.
  - intros Hfail cl rq answered. unfold queryDoH.
    destruct Hfail as [Hfail|Hfail].
    + destruct (Msg_Pack N req) as [packed|e]; [by destruct (Hfail packed)|].
      cbn. rewrite elem_of_cons, elem_of_nil. by intros [?|[]].
    + destruct (Msg_Pack N req) as [packed|e].
      * destruct (http_NewRequest_err N urlStr); [|done].
        cbn. rewrite !elem_of_cons, elem_of_nil. by intros [?|[?|[]]].
      * cbn. rewrite elem_of_cons, elem_of_nil. by intros [?|[]].
  - unfold queryDoH. by repeat case_match.
  - by destruct tlsVerify.
Qed.

Lemma HasPrefix_cons s c pre :
  strings.HasPrefix s (String c pre) = true ->
  exists s', s = String c s' /\ strings.HasPrefix s' pre = true.
Proof.
  destruct s as [|d s]; [done|]. cbn [strings.HasPrefix].
  intros H. apply andb_true_iff in H as [Hc Hp].
  apply Ascii.eqb_eq in Hc as <-. eauto.
Qed.

Lemma Contains_append_port u : strings.Contains (u +:+ ":53") ":" = true.
Proof.
  induction u as [|c u IH]; [done|].
  change (String c u +:+ ":53") with (String c (u +:+ ":53")).
  cbn [strings.Contains]. rewrite IH. apply orb_true_r.
Qed.

(** A string that starts with [pre], where [pre] has a colon, has one. *)
Lemma HasPrefix_Contains s pre :
  strings.HasPrefix s pre = true -> strings.Contains pre ":" = true ->
  strings.Contains s ":" = true.
Proof.
  revert s. induction pre as [|c pre IH]; intros s Hp Hc; [done|].
  apply HasPrefix_cons in Hp as (s' & -> & Hp).
  cbn [strings.Contains strings.HasPrefix] in *.
  rewrite andb_true_r in *. destruct (Ascii.eqb ":" c); [done|].
  cbn [orb] in *. exact (IH s' Hp Hc).
Qed.

(** What [u +:+ t] starts with, [u] starts with or continues into [t]. *)
Lemma HasPrefix_append u t pre :
  strings.HasPrefix (u +:+ t) pre = true ->
  strings.HasPrefix u pre = true \/
  exists k, pre = u +:+ k /\ strings.HasPrefix t k = true.
Proof.
  revert pre. induction u as [|c u IH]; intros pre H.
  - right. by exists pre.
  - destruct pre as [|d pre]; [by left|].
    change (String c u +:+ t) with (String c (u +:+ t)) in H.
    apply HasPrefix_cons in H as (s' & Heq & H).
    injection Heq as <- <-. destruct (IH pre H) as [Hl|(k & -> & Hk)].
    + left. cbn [strings.HasPrefix]. by rewrite Ascii.eqb_refl.
    + right. by exists k.
Qed.

Lemma port_suffix_is_no_url u :
  strings.Contains u ":" = false -> identifier.is_url (u +:+ ":53") = false.
Proof.
  intros Hno. unfold identifier.is_url. apply orb_false_iff.
  assert (forall pre,
            strings.Contains pre ":" = true ->
            (forall k, strings.HasPrefix ":53" k = true ->
                       forall w, pre = w +:+ k -> k = "" ) ->
            strings.HasPrefix (u +:+ ":53") pre = false) as Hpre.
  { intros pre Hc Hk.
    destruct (strings.HasPrefix (u +:+ ":53") pre) eqn:Hp; [|done].
    destruct (HasPrefix_append _ _ _ Hp) as [Hu|(k & -> & Hkp)].
    - pose proof (HasPrefix_Contains _ _ Hu Hc). congruence.
    - rewrite (Hk k Hkp u eq_refl) in Hc.
      assert (forall w, w +:+ "" = w) as Hnil
        by (intros w; induction w as [|a w IHw]; [done|];
            change (String a w +:+ "") with (String a (w +:+ ""));
            by rewrite IHw).
      rewrite Hnil in Hc. congruence. }
  assert (forall k, strings.HasPrefix ":53" k = true ->
                    k = "" \/ k = ":" \/ k = ":5" \/ k = ":53") as Hks.
  { intros k Hk. destruct k as [|c1 k]; [by left|].
    apply HasPrefix_cons in Hk as (s1 & [= <- <-] & Hk).
    destruct k as [|c2 k]; [by right; left|].
    apply HasPrefix_cons in Hk as (s2 & [= <- <-] & Hk).
    destruct k as [|c3 k]; [by right; right; left|].
    apply HasPrefix_cons in Hk as (s3 & [= <- <-] & Hk).
    destruct k as [|c4 k]; [by right; right; right|]. done. }
  assert (forall w k z, w +:+ k = z ->
                        String.length z = (String.length w + String.length k)%nat)
    as Hlen.
  { intros w k z <-. induction w as [|a w IHw]; [done|].
    change (String a w +:+ k) with (String a (w +:+ k)).
    cbn [String.length]. by rewrite IHw. }
  split; apply Hpre; try reflexivity.
  - intros k Hk w Hw. destruct (Hks k Hk) as [-> | [-> | [-> | ->]]]; [done|..];
      exfalso; pose proof (Hlen _ _ _ (eq_sym Hw)) as Hl; cbn in Hl.
    + destruct w as [|? [|? [|? [|? [|? [|? [|? [|? w]]]]]]]]; cbn in Hl;
        try lia; by simplify_eq.
    + destruct w as [|? [|? [|? [|? [|? [|? [|? w]]]]]]]; cbn in Hl;
        try lia; by simplify_eq.
    + destruct w as [|? [|? [|? [|? [|? [|? w]]]]]]; cbn in Hl;
        try lia; by simplify_eq.
  - intros k Hk w Hw. destruct (Hks k Hk) as [-> | [-> | [-> | ->]]]; [done|..];
      exfalso; pose proof (Hlen _ _ _ (eq_sym Hw)) as Hl; cbn in Hl.
    + destruct w as [|? [|? [|? [|? [|? [|? [|? w]]]]]]]; cbn in Hl;
        try lia; by simplify_eq.
    + destruct w as [|? [|? [|? [|? [|? [|? w]]]]]]; cbn in Hl;
        try lia; by simplify_eq.
    + destruct w as [|? [|? [|? [|? [|? w]]]]]; cbn in Hl;
        try lia; by simplify_eq.
Qed.

(** X7: for an identifier that is no URL, the address handed to the
    classic adapter always contains a colon, is the identifier itself
    when that contains one, and is a fixed point of the normalisation:
    handed in as an identifier it is passed on unchanged, so [":53"] is
    never appended twice. *)
Theorem select_adapter_address_stable (u : string) (v : bool) :
  identifier.is_url u = false ->
  exists addr,
    select_adapter u v = CallUDP addr /\
    strings.Contains addr ":" = true /\
    (strings.Contains u ":" = true -> addr = u) /\
    select_adapter addr v = CallUDP addr.
Proof.
  intros Hurl. unfold select_adapter.
  pose proof Hurl as Hurl'. unfold identifier.is_url in Hurl'. rewrite Hurl'.
  destruct (strings.Contains u ":") eqn:Hc; cbn [negb].
  - exists u. by rewrite Hurl', Hc.
  - exists (u +:+ ":53").
    pose proof (port_suffix_is_no_url u Hc) as Hn.
    unfold identifier.is_url in Hn. rewrite Hn, Contains_append_port. done.
Qed.

Lemma select_adapter_address_stable_witness :
  exists addr,
    select_adapter "dns.example" true = CallUDP addr /\
    strings.Contains addr ":" = true /\
    (strings.Contains "dns.example" ":" = true -> addr = "dns.example") /\
    select_adapter addr true = CallUDP addr.
Proof.
  apply (select_adapter_address_stable "dns.example" true). reflexivity.
Defined.

End AdaptersFurther.

(** ** The exchange engine, further *)

Section EngineFurther.

Import upstream.

Ltac exec_inv H :=
  match type of H with
  | exec ?a ?s = Some ?s' =>
    destruct a; cbn [exec] in H;
    unfold do_query, do_send, do_drop, do_close, do_recv, do_done,
           do_ctx_end in H;
    repeat case_match; simplify_eq;
    try match goal with
        | Hb : _ && false = true |- _ => by rewrite andb_false_r in Hb
        end
  end.

(** Which goroutine made which invocation: a goroutine that has not
    called its adapter holds the identifier at its position and has no
    invocation; an invocation was made by the goroutine at its position,
    on the adapter selected for the identifier there; and no goroutine
    made two. *)
Lemma attempts_exec a s s' :
  ((forall i u, goroutines s !! i = Some (G_start u) ->
                upstreams s !! i = Some u /\ i ∉ map (fun x => fst (fst x)) (invoked s)) /\
   (forall i ad res, (i, ad, res) ∈ invoked s ->
      exists u, upstreams s !! i = Some u /\
                ad = select_adapter u (tlsVerify s)) /\
   NoDup (map (fun x => fst (fst x)) (invoked s))) ->
  exec a s = Some s' ->
  (forall i u, goroutines s' !! i = Some (G_start u) ->
               upstreams s' !! i = Some u /\ i ∉ map (fun x => fst (fst x)) (invoked s')) /\
  (forall i ad res, (i, ad, res) ∈ invoked s' ->
     exists u, upstreams s' !! i = Some u /\
               ad = select_adapter u (tlsVerify s')) /\
  NoDup (map (fun x => fst (fst x)) (invoked s')).
Proof.
  intros (Hstart & Hinv & Hnd) H.
  exec_inv H; cbn [goroutines upstreams tlsVerify invoked do_return];
    try (split; [|split]; done).
  - (* the adapter call of goroutine [i] *)
    match goal with Hg : goroutines s !! ?j = Some (G_start ?w) |- _ =>
      destruct (Hstart _ _ Hg) as [Hu Hfresh]; rename j into i0 end.
    split; [|split].
    + intros j w Hj. destruct (decide (j = i0)) as [->|Hne].
      * rewrite list_lookup_insert_eq in Hj by (by eapply lookup_lt_Some).
        done.
      * rewrite list_lookup_insert_ne in Hj by done.
        destruct (Hstart _ _ Hj) as [? Hn]. split; [done|].
        rewrite map_app, elem_of_app. cbn. rewrite list_elem_of_singleton.
        tauto.
    + intros j ad res Hin. rewrite elem_of_app, list_elem_of_singleton in Hin.
      destruct Hin as [Hin|Heq]; [by eapply Hinv|]. simplify_eq. eauto.
    + rewrite map_app. cbn. apply NoDup_app. split; [done|]. split.
      * intros j Hj Hj'. apply list_elem_of_singleton in Hj'. by subst.
      * apply NoDup_singleton.
  - (* a send *)
    split; [|split]; try done.
    intros j w Hj.
    match goal with Hg : goroutines s !! ?k = Some (G_select _) |- _ =>
      destruct (decide (j = k)) as [->|Hne];
      [rewrite list_lookup_insert_eq in Hj by (by eapply lookup_lt_Some);
       done
      |rewrite list_lookup_insert_ne in Hj by done; by apply Hstart]
    end.
  - (* a drop *)
    split; [|split]; try done.
    intros j w Hj.
    match goal with Hg : goroutines s !! ?k = Some (G_select _) |- _ =>
      destruct (decide (j = k)) as [->|Hne];
      [rewrite list_lookup_insert_eq in Hj by (by eapply lookup_lt_Some);
       done
      |rewrite list_lookup_insert_ne in Hj by done; by apply Hstart]
    end.
Qed.

Lemma attempts_run c ctx r ups v sched s :
  run sched (start c ctx r ups v) = Some s ->
  (forall i ad res,
     (i, ad, res) ∈ invoked s ->
     exists u, ups !! i = Some u /\ ad = select_adapter u v) /\
  NoDup (map (fun x => fst (fst x)) (invoked s)).
Proof.
  intros Hrun.
  destruct (run_start_args _ _ _ _ _ _ _ Hrun) as (_ & _ & Hups & Hv).
  assert ((forall i u, goroutines s !! i = Some (G_start u) ->
             upstreams s !! i = Some u /\
             i ∉ map (fun x => fst (fst x)) (invoked s)) /\
          (forall i ad res, (i, ad, res) ∈ invoked s ->
             exists u, upstreams s !! i = Some u /\
                       ad = select_adapter u (tlsVerify s)) /\
          NoDup (map (fun x => fst (fst x)) (invoked s))) as (_ & Hinv & Hnd).
  { eapply (run_preserves _ attempts_exec); [|exact Hrun].
    unfold start. destruct (length ups =? 0)%nat; cbn.
    - split; [done|]. split; [|constructor].
      intros i ad res Hin. by apply elem_of_nil in Hin.
    - split; [|split; [|constructor]].
      + intros i u Hi. split; [|intros Hin; by apply elem_of_nil in Hin].
        change (map G_start ups) with (G_start <$> ups) in Hi.
        rewrite list_lookup_fmap in Hi.
        destruct (ups !! i) as [w|]; by simplify_eq/=.
      + intros i ad res Hin. by apply elem_of_nil in Hin. }
  rewrite Hups, Hv in Hinv. done.
Qed.

(** X8: no upstream is tried twice: in every state of a call, each
    adapter invocation was made by a different goroutine, for the
    identifier at that goroutine's position in the caller's list, on the
    adapter and address selected for it with the call's flag; there are
    at most as many invocations as upstreams. *)
Theorem Exchange_tries_each_upstream_once (c : Client) (ctx : Context)
    (r : dns.Msg) (ups : list string) (v : bool)
    (sched : list Action) (s : State) :
  run sched (start c ctx r ups v) = Some s ->
  NoDup (map (fun x => fst (fst x)) (invoked s)) /\
  (forall i ad res,
     (i, ad, res) ∈ invoked s ->
     exists u, ups !! i = Some u /\ ad = select_adapter u v) /\
  (length (invoked s) <= length ups)%nat.
Proof.
  intros Hrun. destruct (attempts_run _ _ _ _ _ _ _ Hrun) as [Hinv Hnd].
  destruct (run_start_args _ _ _ _ _ _ _ Hrun) as (_ & _ & Hups & Hv).
  split; [done|]. split; [done|].
  destruct ups as [|u0 ups'].
  - destruct (nothing_started_run _ _ _ _ _ _ Hrun) as (_ & _ & _ & -> & _).
    done.
  - assert (u0 :: ups' <> []) as Hne by done.
    pose proof (Invariant_run _ _ _ _ _ _ _ Hne Hrun) as [_ _ _ _ _ Hcount _ _ _].
    rewrite Hups in Hcount. lia.
Qed.

Lemma Exchange_tries_each_upstream_once_witness :
  exists s,
    run [A_query 1 (sample.answering 7 "b" 200);
         A_query 0 (sample.refusing "i/o timeout"); A_send 0; A_recv]
        (start NewClient Background (sample.query 1 "example.")
               ["1.0.0.1"; "https://dns.example/dns-query"] false) = Some s /\
    map (fun x => fst x) (invoked s) =
      [(1%nat, CallDoH "https://dns.example/dns-query" false);
       (0%nat, CallUDP "1.0.0.1:53")] /\
    NoDup (map (fun x => fst (fst x)) (invoked s)) /\
    (forall i ad res,
       (i, ad, res) ∈ invoked s ->
       exists u, ["1.0.0.1"; "https://dns.example/dns-query"] !! i = Some u /\
                 ad = select_adapter u false) /\
    (length (invoked s) <= 2)%nat.
Proof.
  eexists. split; [vm_compute; reflexivity|]. split; [reflexivity|].
  apply (Exchange_tries_each_upstream_once NewClient Background
           (sample.query 1 "example.")
           ["1.0.0.1"; "https://dns.example/dns-query"] false
           [A_query 1 (sample.answering 7 "b" 200);
            A_query 0 (sample.refusing "i/o timeout"); A_send 0; A_recv]).
  vm_compute. reflexivity.
Defined.

(** X9: the result channel never holds more results than there are
    upstreams, and a goroutine whose adapter has returned can always
    send: in no state of a call, before or after the return, with the
    caller's context ended or not, is a goroutine blocked on the
    channel. *)
Theorem Exchange_send_never_blocks (c : Client) (ctx : Context)
    (r : dns.Msg) (ups : list string) (v : bool)
    (sched : list Action) (s : State) :
  run sched (start c ctx r ups v) = Some s ->
  (length (resultChan s) <= length ups)%nat /\
  (forall i res,
     goroutines s !! i = Some (G_select res) ->
     exists s', exec (A_send i) s = Some s').
Proof.
  intros Hrun. destruct ups as [|u0 ups'].
  - assert (goroutines s = [] /\ resultChan s = [] /\ returned s <> None)
      as (Hg & Hc & _).
    { eapply (run_preserves
                (fun x => goroutines x = [] /\ resultChan x = [] /\
                          returned x <> None));
        [| |exact Hrun]; [|by repeat split].
      intros a x x' (Hg & Hc & Hr) H.
      exec_inv H; cbn [goroutines resultChan returned do_return];
        try done; rewrite Hg in *; done. }
    rewrite Hc, Hg. split; [done|]. intros i res Hi. done.
  - assert (u0 :: ups' <> []) as Hne by done.
    pose proof (Invariant_run _ _ _ _ _ _ _ Hne Hrun) as Hinv.
    destruct (run_start_args _ _ _ _ _ _ _ Hrun) as (_ & _ & Hups & _).
    split.
    + destruct Hinv as [_ _ _ Hchan Hres Hcount _ _ _].
      apply Permutation_length in Hres.
      rewrite length_map, !length_app in Hres.
      apply (f_equal length) in Hchan. rewrite length_app in Hchan.
      rewrite Hups in Hcount. lia.
    + intros i res Hi. cbn [exec]. by eapply send_enabled.
Qed.

Lemma Exchange_send_never_blocks_witness :
  exists s,
    run [A_query 0 (sample.answering 7 "a" 200);
         A_query 1 (sample.answering 8 "b" 200);
         A_send 0; A_recv; A_ctx_end Canceled]
        (start NewClient sample.cancellable (sample.query 1 "example.")
               ["1.0.0.1"; "8.8.8.8"] true) = Some s /\
    returned s <> None /\
    (exists res, goroutines s !! 1%nat = Some (G_select res)) /\
    (length (resultChan s) <= 2)%nat /\
    (forall i res,
       goroutines s !! i = Some (G_select res) ->
       exists s', exec (A_send i) s = Some s').
Proof.
  eexists. split; [vm_compute; reflexivity|]. split; [done|].
  split; [eexists; reflexivity|].
  apply (Exchange_send_never_blocks NewClient sample.cancellable
           (sample.query 1 "example.") ["1.0.0.1"; "8.8.8.8"] true
           [A_query 0 (sample.answering 7 "a" 200);
            A_query 1 (sample.answering 8 "b" 200);
            A_send 0; A_recv; A_ctx_end Canceled]).
  vm_compute. reflexivity.
Defined.

Lemma close_exec a s s' :
  (closed s = true ->
   forallb exited (goroutines s) = true /\ closer s = false) ->
  exec a s = Some s' ->
  (closed s' = true ->
   forallb exited (goroutines s') = true /\ closer s' = false) /\
  ((if match a with A_close => true | _ => false end then 1 else 0)
   + (if closer s' then 1 else 0) <= (if closer s then 1 else 0))%nat.
Proof.
  intros Hc H.
  set (bit := fun b : bool => if b then 1%nat else 0%nat).
  set (isc := fun a : Action => match a with A_close => true | _ => false end).
  change ((closed s' = true ->
           forallb exited (goroutines s') = true /\ closer s' = false) /\
          (bit (isc a) + bit (closer s') <= bit (closer s))%nat).
  exec_inv H; cbn [goroutines closed closer do_return isc];
    try (split; [by auto|cbn; lia]).
  - split; [|cbn; lia]. intros Hcl.
    destruct (Hc Hcl) as [Hall _].
    match goal with Hg : goroutines s !! _ = Some (G_start _) |- _ =>
      by pose proof (exited_lookup _ _ _ Hall Hg) end.
  - split; [|cbn; lia]. intros Hcl.
    match goal with Hb : _ && negb (closed s) = true |- _ =>
      apply andb_true_iff in Hb as [_ Hb]; rewrite Hcl in Hb end. done.
  - split; [|cbn; lia]. intros Hcl.
    destruct (Hc Hcl) as [Hall _].
    match goal with Hg : goroutines s !! _ = Some (G_select _) |- _ =>
      by pose proof (exited_lookup _ _ _ Hall Hg) end.
  - match goal with Hb : closer s && _ = true |- _ =>
      apply andb_true_iff in Hb as [Hcl Hall]; rewrite Hcl end.
    split; [done|]. cbn. lia.
Qed.

(** X10: the helper closes the result channel at most once, and only
    when every goroutine has exited: no goroutine that still holds a
    result finds the channel closed, so no send can hit a closed
    channel. *)
Theorem Exchange_closes_once_after_all_exit (c : Client) (ctx : Context)
    (r : dns.Msg) (ups : list string) (v : bool)
    (sched : list Action) (s : State) :
  run sched (start c ctx r ups v) = Some s ->
  (length (List.filter
             (fun a => match a with A_close => true | _ => false end) sched)
   <= 1)%nat /\
  (closed s = true -> forallb exited (goroutines s) = true) /\
  (forall i res, goroutines s !! i = Some (G_select res) -> closed s = false).
Proof.
  intros Hrun.
  assert (forall sch x x',
            (closed x = true ->
             forallb exited (goroutines x) = true /\ closer x = false) ->
            run sch x = Some x' ->
            (closed x' = true ->
             forallb exited (goroutines x') = true /\ closer x' = false) /\
            (length (List.filter
                       (fun a => match a with A_close => true | _ => false end)
                       sch)
             + (if closer x' then 1 else 0) <= (if closer x then 1 else 0))%nat)
    as Hgen.
  { induction sch as [|a sch IH]; intros x x' Hx Hr; cbn in Hr.
    - simplify_eq. split; [done|]. cbn. lia.
    - destruct (exec a x) as [x1|] eqn:Ha; [|done].
      destruct (close_exec _ _ _ Hx Ha) as [Hx1 Hle].
      destruct (IH _ _ Hx1 Hr) as [Hx' Hle']. split; [done|].
      cbn [List.filter]. destruct a; cbn [length] in *; lia. }
  destruct (Hgen sched (start c ctx r ups v) s) as [Hclosed Hcount];
    [|exact Hrun|].
  { unfold start. by destruct (length ups =? 0)%nat. }
  split; [|split].
  - destruct (closer (start c ctx r ups v)), (closer s); lia.
  - intros Hc. by destruct (Hclosed Hc).
  - intros i res Hi. destruct (closed s) eqn:Hc; [|done].
    destruct (Hclosed eq_refl) as [Hall _].
    by pose proof (exited_lookup _ _ _ Hall Hi).
Qed.

Lemma Exchange_closes_once_after_all_exit_witness :
  exists s,
    run [A_query 0 (sample.refusing "i/o timeout"); A_send 0; A_close;
         A_recv; A_recv]
        (start NewClient Background (sample.query 1 "example.")
               ["1.0.0.1"] true) = Some s /\
    closed s = true /\
    (closed s = true -> forallb exited (goroutines s) = true) /\
    (forall i res,
       goroutines s !! i = Some (G_select res) -> closed s = false).
Proof.
  eexists. split; [vm_compute; reflexivity|]. split; [reflexivity|].
  apply (Exchange_closes_once_after_all_exit NewClient Background
           (sample.query 1 "example.") ["1.0.0.1"] true
           [A_query 0 (sample.refusing "i/o timeout"); A_send 0; A_close;
            A_recv; A_recv]).
  vm_compute. reflexivity.
Defined.

Lemma last_err_elem rs e :
  last_err rs = Some e -> exists res, res ∈ rs /\ err res = Some e.
Proof.
  induction rs as [|r0 rs IH] using rev_ind; [done|].
  rewrite last_err_snoc. unfold note_err.
  destruct (err r0) as [e0|] eqn:He.
  - intros [= <-]. exists r0. split; [|done].
    rewrite elem_of_app, list_elem_of_singleton. by right.
  - intros H. destruct (IH H) as (res & Hin & Hres). exists res.
    split; [|done]. rewrite elem_of_app. by left.
Qed.

Lemma last_err_none rs res :
  last_err rs = None -> res ∈ rs -> err res = None.
Proof.
  induction rs as [|r0 rs IH] using rev_ind.
  - intros _ Hin. by apply elem_of_nil in Hin.
  - rewrite last_err_snoc. unfold note_err.
    destruct (err r0) as [e0|] eqn:He; [done|]. intros H Hin.
    rewrite elem_of_app, list_elem_of_singleton in Hin.
    destruct Hin as [Hin| ->]; [by apply IH|done].
Qed.

(** Every result the loop has received is the result of an attempt. *)
Lemma seen_was_returned s res :
  Invariant s -> res ∈ seen s ->
  exists x, x ∈ invoked s /\ outcome x = res.
Proof.
  intros [_ _ _ Hchan Hres _ _ _ _] Hin. apply elem_of_outcomes.
  rewrite Hres, Hchan, !elem_of_app. tauto.
Qed.

(** A message [Exchange] returns is the message of an attempt that
    returned no error. *)
Lemma returned_message_of_attempt c ctx r ups v sched s m eo :
  run sched (start c ctx r ups v) = Some s ->
  returned s = Some (Some m, eo) ->
  eo = None /\
  exists x, x ∈ invoked s /\ msg (outcome x) = Some m /\
            err (outcome x) = None.
Proof.
  intros Hrun Hr. destruct ups as [|u0 ups'].
  - destruct (nothing_started_run _ _ _ _ _ _ Hrun) as (_ & _ & Hr' & _).
    congruence.
  - assert (u0 :: ups' <> []) as Hne by done.
    pose proof (Invariant_run _ _ _ _ _ _ _ Hne Hrun) as Hinv.
    pose proof Hinv as [_ _ _ _ _ _ _ _ Hret].
    destruct (Hret _ Hr) as [_ [pre res Hseen _ Hok Heq| _ _ _ _ Heq|e _ Heq]];
      [|done|done].
    injection Heq as Hm ->. split; [done|].
    destruct (seen_was_returned s res Hinv) as (x & Hx & Hox).
    { rewrite Hseen, elem_of_app, list_elem_of_singleton. by right. }
    exists x. rewrite Hox. unfold is_success in Hok.
    destruct (err res); [done|]. by rewrite <- Hm.
Qed.

(** X11: [Exchange] makes up no answer: a message it returns is the
    message an adapter returned without an error, and an error it
    returns is "no upstreams provided" for an empty list, or the error
    of the caller's ended context, or, once every upstream has been
    tried, an error some attempt returned, or "all upstreams failed"
    when no result received carried one. *)
Theorem Exchange_returns_what_an_attempt_returned (c : Client)
    (ctx : Context) (r : dns.Msg) (ups : list string) (v : bool)
    (sched : list Action) (s : State)
    (ret : option dns.Msg * option error) :
  run sched (start c ctx r ups v) = Some s ->
  returned s = Some ret ->
  (exists x m,
     x ∈ invoked s /\ msg (outcome x) = Some m /\
     err (outcome x) = None /\ ret = (Some m, None)) \/
  (exists e,
     ret = (None, Some e) /\
     ((ups = [] /\ e = Err_no_upstreams) \/
      (exists ce, ctx_err (parent s) = Some ce /\ e = Err_ctx ce) \/
      (length (invoked s) = length ups /\
       ((exists x, x ∈ invoked s /\ err (outcome x) = Some e) \/
        (e = Err_all_upstreams_failed /\
         forall res, res ∈ seen s -> err res = None))))).
Proof.
  intros Hrun Hr. destruct ups as [|u0 ups'].
  - destruct (nothing_started_run _ _ _ _ _ _ Hrun) as (_ & _ & Hr' & _).
    right. exists Err_no_upstreams. split; [congruence|]. by left.
  - assert (u0 :: ups' <> []) as Hne by done.
    pose proof (Invariant_run _ _ _ _ _ _ _ Hne Hrun) as Hinv.
    pose proof Hinv as [_ _ Hclosed _ _ Hcount _ _ Hret].
    destruct (run_start_args _ _ _ _ _ _ _ Hrun) as (_ & _ & Hups & _).
    destruct (Hret _ Hr) as [_ [pre res Hseen _ Hok ->| _ Hc _ _ ->|e He ->]].
    + left. destruct (msg res) as [m|] eqn:Hm.
      * destruct (returned_message_of_attempt _ _ _ _ _ _ _ m None Hrun)
          as (_ & x & Hx & Hxm & Hxe); [congruence|].
        exists x, m. done.
      * unfold is_success in Hok. rewrite Hm in Hok.
        by destruct (err res).
    + right. eexists. split; [done|]. right. right.
      specialize (Hclosed Hc).
      rewrite (not_started_exited _ Hclosed), Nat.add_0_r, Hups in Hcount.
      split; [done|]. unfold all_tried.
      destruct (last_err (seen s)) as [e|] eqn:Hl.
      * left. destruct (last_err_elem _ _ Hl) as (res & Hin & He).
        destruct (seen_was_returned s res Hinv Hin) as (x & Hx & <-).
        eauto.
      * right. split; [done|]. intros res Hin. by eapply last_err_none.
    + right. eexists. split; [done|]. right. left. eauto.
Qed.

(** An attempt returns both a message and an error: the loop takes it
    for a failure and returns its error. *)
Lemma Exchange_returns_what_an_attempt_returned_witness :
  exists s,
    run [A_query 0 sample_net.truncating; A_send 0; A_recv; A_close; A_recv]
        (start NewClient Background (sample.query 1 "example.")
               ["1.0.0.1"] true) = Some s /\
    returned s = Some (None, Some (Err_lib "truncated")) /\
    ((exists x m,
        x ∈ invoked s /\ msg (outcome x) = Some m /\
        err (outcome x) = None /\
        (@None dns.Msg, Some (Err_lib "truncated")) = (Some m, None)) \/
     (exists e,
        (@None dns.Msg, Some (Err_lib "truncated")) = (None, Some e) /\
        (((["1.0.0.1"] : list string) = [] /\ e = Err_no_upstreams) \/
         (exists ce, ctx_err (parent s) = Some ce /\ e = Err_ctx ce) \/
         (length (invoked s) = 1%nat /\
          ((exists x, x ∈ invoked s /\ err (outcome x) = Some e) \/
           (e = Err_all_upstreams_failed /\
            forall res, res ∈ seen s -> err res = None)))))).
Proof.
  eexists. split; [vm_compute; reflexivity|]. split; [reflexivity|].
  apply (Exchange_returns_what_an_attempt_returned NewClient Background
           (sample.query 1 "example.") ["1.0.0.1"] true
           [A_query 0 sample_net.truncating; A_send 0; A_recv; A_close;
            A_recv]).
  - vm_compute. reflexivity.
  - reflexivity.
Defined.

End EngineFurther.

(** ** The request router, further *)

Section RouterFurther.

Import upstream.

Context {IP : Type}.
Variable ParseIP : string -> option IP.
Variable IPString : IP -> string.
Variable SplitHostPort : string -> (string * string) + string.

Local Abbreviation route := (server.route ParseIP IPString SplitHostPort).
Local Abbreviation ServeDNS :=
  (server.ServeDNS ParseIP IPString SplitHostPort).

Lemma route_None s remoteAddr :
  route s remoteAddr = None <-> exists e, SplitHostPort remoteAddr = inr e.
Proof.
  unfold server.route. destruct (SplitHostPort remoteAddr) as [[h p]|e].
  - split; [|by intros [? ?]].
    by destruct (device.Get _ _ _).
  - split; [eauto|done].
Qed.

(** X12: a query is dropped exactly when the remote address does not
    split into host and port; when it splits, whatever the host is,
    [ServeDNS] has an outcome and every outcome is a message written to
    the client. *)
Theorem ServeDNS_drops_only_unsplittable (s : server.Server)
    (remoteAddr : string) (r : dns.Msg) :
  (ServeDNS s remoteAddr r server.Dropped <->
   exists e, SplitHostPort remoteAddr = inr e) /\
  ((exists hp, SplitHostPort remoteAddr = inl hp) ->
   (exists out, ServeDNS s remoteAddr r out) /\
   forall out, ServeDNS s remoteAddr r out -> exists m, out = server.Wrote m).
Proof.
  split.
  - split.
    + intros H. remember server.Dropped as out eqn:Hout.
      destruct H as [Hr|ups v ret Hr Hex]; [by apply route_None in Hr|].
      destruct (respond_Exchange _ _ _ _ _ r _ Hex) as (m & Hm & _).
      congruence.
    + intros He. apply server.Serve_dropped. by apply route_None.
  - intros [hp Hhp].
    assert (exists ups v, route s remoteAddr = Some (ups, v)) as (ups & v & Hr).
    { destruct (route s remoteAddr) as [[ups v]|] eqn:Hr; [eauto|].
      apply route_None in Hr as [e He]. congruence. }
    split.
    + destruct (Exchange_returns (server.client s) Background r ups v)
        as [ret Hex].
      exists (server.respond r ret). by eapply server.Serve_answered.
    + intros out [Hnone|ups' v' ret Hr' Hex]; [congruence|].
      destruct (respond_Exchange _ _ _ _ _ r _ Hex) as (m & Hm & _).
      eauto.
Qed.

(** X13: when the host of the remote address parses and the index holds
    a device for it, [Exchange] is called with that device's upstreams
    and flag, and the global upstreams are not used: a device with an
    empty upstream list gets the server-failure reply, whatever the
    global list is. *)
Theorem ServeDNS_uses_the_device_policy (s : server.Server)
    (remoteAddr : string) (r : dns.Msg) (host port : string) (ip : IP)
    (dev : device.Device) :
  SplitHostPort remoteAddr = inl (host, port) ->
  ParseIP host = Some ip ->
  device.Get IPString (server.devManager s) (Some ip) = Some dev ->
  route s remoteAddr = Some (device.Upstreams dev, device.TLSVerify dev) /\
  (forall out,
     ServeDNS s remoteAddr r out ->
     exists ret,
       Exchange (server.client s) Background r (device.Upstreams dev)
                (device.TLSVerify dev) ret /\
       out = server.respond r ret) /\
  (device.Upstreams dev = [] ->
   forall out,
     ServeDNS s remoteAddr r out ->
     out = server.Wrote (dns.SetRcode dns.new_Msg r dns.RcodeServerFailure)).
Proof.
  intros Hsplit Hparse Hget.
  assert (route s remoteAddr =
          Some (device.Upstreams dev, device.TLSVerify dev)) as Hroute.
  { unfold server.route. by rewrite Hsplit, Hparse, Hget. }
  split; [done|]. split.
  - intros out [Hr|ups v ret Hr Hex]; [congruence|].
    rewrite Hroute in Hr. simplify_eq. eauto.
  - intros Hempty out [Hr|ups v ret Hr Hex]; [congruence|].
    rewrite Hroute, Hempty in Hr. simplify_eq.
    destruct Hex as (sched & st & Hrun & Hret).
    destruct (nothing_started_run _ _ _ _ _ _ Hrun) as (_ & _ & Hr' & _).
    rewrite Hr' in Hret. by simplify_eq.
Qed.

(** X14: a message written to the client is either the server-failure
    reply built from the query, or the message an adapter returned
    without error for one of the routed upstreams, with nothing changed
    but the identifier. *)
Theorem ServeDNS_writes_an_answer_of_an_upstream (s : server.Server)
    (remoteAddr : string) (r m : dns.Msg) :
  ServeDNS s remoteAddr r (server.Wrote m) ->
  m = dns.SetRcode dns.new_Msg r dns.RcodeServerFailure \/
  exists ups v sched st i u res resp,
    route s remoteAddr = Some (ups, v) /\
    run sched (start (server.client s) Background r ups v) = Some st /\
    (i, select_adapter u v, res) ∈ invoked st /\ ups !! i = Some u /\
    msg res = Some resp /\ err res = None /\
    m = dns.set_Id resp (dns.Id r) /\
    dns.Rcode m = dns.Rcode resp /\ dns.Answer m = dns.Answer resp /\
    dns.Question m = dns.Question resp.
Proof.
  intros H. remember (server.Wrote m) as out eqn:Hout.
  destruct H as [Hr|ups v ret Hr Hex]; [done|].
  destruct Hex as (sched & st & Hrun & Hret).
  destruct ret as [[resp|] [e|]]; unfold server.respond in Hout;
    [left; by injection Hout| |left; by injection Hout|done].
  injection Hout as <-. right.
  destruct (returned_message_of_attempt _ _ _ _ _ _ _ _ _ Hrun Hret)
    as (_ & [[i ad] res] & Hx & Hm & He).
  destruct (attempts_run _ _ _ _ _ _ _ Hrun) as [Hinv _].
  destruct (Hinv _ _ _ Hx) as (u & Hu & ->).
  exists ups, v, sched, st, i, u, res, resp. done.
Qed.

End RouterFurther.

Lemma ServeDNS_drops_only_unsplittable_witness :
  (exists out,
     server.ServeDNS sample.ParseIP sample.IPString sample.SplitHostPort
       sample.two_devices_server "192.168.0.23:5353"
       (sample.query 4242 "example.") out) /\
  forall out,
    server.ServeDNS sample.ParseIP sample.IPString sample.SplitHostPort
      sample.two_devices_server "192.168.0.23:5353"
      (sample.query 4242 "example.") out ->
    exists m, out = server.Wrote m.
Proof.
  apply (ServeDNS_drops_only_unsplittable sample.ParseIP sample.IPString
           sample.SplitHostPort sample.two_devices_server
           "192.168.0.23:5353" (sample.query 4242 "example.")).
  eexists. reflexivity.
Defined.


Lemma ServeDNS_uses_the_device_policy_witness :
  server.route sample.ParseIP sample.IPString sample.SplitHostPort
    sample.two_devices_server "192.168.0.23:5353" =
    Some (["1.0.0.2"], false) /\
  (forall out,
     server.ServeDNS sample.ParseIP sample.IPString sample.SplitHostPort
       sample.two_devices_server "192.168.0.23:5353"
       (sample.query 4242 "example.") out ->
     exists ret,
       upstream.Exchange upstream.NewClient upstream.Background
         (sample.query 4242 "example.") ["1.0.0.2"] false ret /\
       out = server.respond (sample.query 4242 "example.") ret) /\
  ((["1.0.0.2"] : list string) = [] ->
   forall out,
     server.ServeDNS sample.ParseIP sample.IPString sample.SplitHostPort
       sample.two_devices_server "192.168.0.23:5353"
       (sample.query 4242 "example.") out ->
     out = server.Wrote
             (dns.SetRcode dns.new_Msg (sample.query 4242 "example.")
                dns.RcodeServerFailure)).
Proof.
  apply (ServeDNS_uses_the_device_policy sample.ParseIP sample.IPString
           sample.SplitHostPort sample.two_devices_server
           "192.168.0.23:5353" (sample.query 4242 "example.")
           "192.168.0.23" "5353" "192.168.0.23"
           (device.mkDevice "test" ["1.0.0.2"] false)).
  - reflexivity.
  - reflexivity.
  - vm_compute. reflexivity.
Defined.

Lemma ServeDNS_writes_an_answer_of_an_upstream_witness :
  sample.answer_to (sample.query 4242 "example.") 4242 "a" =
    dns.SetRcode dns.new_Msg (sample.query 4242 "example.")
      dns.RcodeServerFailure \/
  exists ups v sched st i u res resp,
    server.route sample.ParseIP sample.IPString sample.SplitHostPort
      sample.two_devices_server "192.168.0.23:5353" = Some (ups, v) /\
    upstream.run sched
      (upstream.start (server.client sample.two_devices_server)
         upstream.Background (sample.query 4242 "example.") ups v) = Some st /\
    (i, upstream.select_adapter u v, res) ∈ upstream.invoked st /\
    ups !! i = Some u /\
    upstream.msg res = Some resp /\ upstream.err res = None /\
    sample.answer_to (sample.query 4242 "example.") 4242 "a" =
      dns.set_Id resp (dns.Id (sample.query 4242 "example.")) /\
    dns.Rcode (sample.answer_to (sample.query 4242 "example.") 4242 "a") =
      dns.Rcode resp /\
    dns.Answer (sample.answer_to (sample.query 4242 "example.") 4242 "a") =
      dns.Answer resp /\
    dns.Question (sample.answer_to (sample.query 4242 "example.") 4242 "a") =
      dns.Question resp.
Proof.
  apply (ServeDNS_writes_an_answer_of_an_upstream sample.ParseIP
           sample.IPString sample.SplitHostPort sample.two_devices_server
           "192.168.0.23:5353" (sample.query 4242 "example.")).
  apply (server.Serve_answered sample.ParseIP sample.IPString
           sample.SplitHostPort sample.two_devices_server
           "192.168.0.23:5353" (sample.query 4242 "example.")
           ["1.0.0.2"] false
           (Some (sample.answer_to (sample.query 4242 "example.") 7 "a"),
            None)).
  - vm_compute. reflexivity.
  - exists [upstream.A_query 0 (sample.answering 7 "a" 200);
            upstream.A_send 0; upstream.A_recv].
    eexists. split; [vm_compute; reflexivity|reflexivity].
Defined.

(** ** The order of the upstream list *)

Section Reordering.

Import upstream reorder.

Lemma forallb_Permutation {A} (p : A -> bool) (l l' : list A) :
  l ≡ₚ l' -> forallb p l = forallb p l'.
Proof.
  induction 1 as [|x l l' _ IH|x y l|l l' l'' _ IH1 _ IH2]; cbn.
  - done.
  - by rewrite IH.
  - destruct (p x), (p y); done.
  - congruence.
Qed.

Lemma similar_goroutines f s s' :
  Inj (=) (=) f -> similar f s s' -> goroutines s ≡ₚ goroutines s'.
Proof.
  intros Hf Hs. apply Permutation_inj. split; [apply (sim_length _ _ _ Hs)|].
  exists f. split; [done|]. apply (sim_goroutines _ _ _ Hs).
Qed.

Lemma similar_insert f s s' i g g0 :
  Inj (=) (=) f -> similar f s s' ->
  goroutines s !! i = Some g0 ->
  length (<[i := g]> (goroutines s)) = length (<[f i := g]> (goroutines s')) /\
  forall j, <[i := g]> (goroutines s) !! j =
            <[f i := g]> (goroutines s') !! f j.
Proof.
  intros Hf Hs Hi. split.
  - rewrite !length_insert. apply (sim_length _ _ _ Hs).
  - intros j. rewrite !list_lookup_insert.
    pose proof (lookup_lt_Some _ _ _ Hi) as Hlt.
    pose proof Hi as Hi'. rewrite (sim_goroutines _ _ _ Hs) in Hi'.
    pose proof (lookup_lt_Some _ _ _ Hi') as Hlt'.
    destruct (decide (i = j)) as [->|Hne].
    + rewrite !decide_True by done. done.
    + rewrite !decide_False; [apply (sim_goroutines _ _ _ Hs)| |].
      * intros [Heq _]. by apply Hf in Heq.
      * by intros [? _].
Qed.

(** An action of one call is matched by the renamed action of the
    other. *)
Lemma similar_exec f a s s' s1 :
  Inj (=) (=) f -> similar f s s' -> exec a s = Some s1 ->
  exists s1', exec (rename f a) s' = Some s1' /\ similar f s1 s1'.
Proof.
  intros Hf Hs H.
  pose proof Hs as [Hcl Hrq Htv Hpa Hca Hco Hch Hcd Hle Hre Hcap Hlen Hgs].
  pose proof (forallb_Permutation exited _ _ (similar_goroutines _ _ _ Hf Hs))
    as Hall.
  destruct a as [i N|i|i| | | |e]; cbn [exec rename] in *.
  - unfold do_query in *. destruct (goroutines s !! i) as [[u|?|]|] eqn:Hi;
      try done.
    rewrite <- Hgs, Hi, <- Hcl, <- Hpa, <- Hrq, <- Htv.
    destruct (run_adapter _ _ _ _ _) as [res ls]. simplify_eq.
    eexists. split; [done|].
    destruct (similar_insert f s s' i (G_select res) _ Hf Hs Hi) as [? ?].
    by constructor.
  - unfold do_send in *. destruct (goroutines s !! i) as [[?|res|]|] eqn:Hi;
      try done.
    rewrite <- Hgs, Hi, <- Hch, <- Hcap, <- Hcd.
    destruct (_ && _); [|done]. simplify_eq.
    eexists. split; [done|].
    destruct (similar_insert f s s' i G_exit _ Hf Hs Hi) as [? ?].
    by constructor.
  - unfold do_drop in *. destruct (goroutines s !! i) as [[?|res|]|] eqn:Hi;
      try done.
    rewrite <- Hgs, Hi.
    assert (ctx_done s' = ctx_done s) as ->
      by (unfold ctx_done; by rewrite Hca, Hpa).
    destruct (ctx_done s); [|done]. simplify_eq.
    eexists. split; [done|].
    destruct (similar_insert f s s' i G_exit _ Hf Hs Hi) as [? ?].
    by constructor.
  - unfold do_close in *. rewrite <- Hco, <- Hall.
    destruct (_ && _); [|done]. simplify_eq.
    eexists. split; [done|]. by constructor.
  - unfold do_recv in *. rewrite <- Hre, <- Hch, <- Hcd, <- Hle.
    destruct (returned s) eqn:Hr; [done|].
    destruct (resultChan s) as [|res rest] eqn:Hc.
    + destruct (closed s) eqn:Hd; [|done]. simplify_eq.
      eexists. split; [done|]. constructor; cbn; congruence.
    + destruct (is_success res); simplify_eq;
        (eexists; split; [done|]); constructor; cbn; congruence.
  - unfold do_done in *. rewrite <- Hre, <- Hpa.
    destruct (returned s) eqn:Hr; [done|].
    destruct (ctx_err (parent s)) eqn:He; [|done]. simplify_eq.
    eexists. split; [done|]. constructor; cbn; congruence.
  - unfold do_ctx_end in *. rewrite <- Hpa.
    destruct (_ && _); [|done]. simplify_eq.
    eexists. split; [done|]. constructor; cbn; congruence.
Qed.

Lemma similar_run f sched s s' s1 :
  Inj (=) (=) f -> similar f s s' -> run sched s = Some s1 ->
  exists s1', run (map (rename f) sched) s' = Some s1' /\ similar f s1 s1'.
Proof.
  intros Hf. revert s s'.
  induction sched as [|a sched IH]; intros s s' Hs Hrun; cbn in Hrun.
  - simplify_eq. by exists s'.
  - destruct (exec a s) as [s2|] eqn:Ha; [|done].
    destruct (similar_exec _ _ _ _ _ Hf Hs Ha) as (s2' & Ha' & Hs2).
    destruct (IH _ _ Hs2 Hrun) as (s1' & Hrun' & Hs1).
    exists s1'. cbn. by rewrite Ha'.
Qed.

Lemma similar_start c ctx r ups ups' v f :
  length ups = length ups' ->
  (forall i, ups !! i = ups' !! f i) ->
  similar f (start c ctx r ups v) (start c ctx r ups' v).
Proof.
  intros Hlen Hf. unfold start. rewrite <- Hlen.
  destruct (length ups =? 0)%nat; constructor; cbn; try done.
  - by rewrite !length_map.
  - intros i. change (map G_start ?l) with (G_start <$> l).
    by rewrite !list_lookup_fmap, Hf.
Qed.

Lemma on_networks_rename net_of ups ups' f sched :
  (forall i, ups !! i = ups' !! f i) ->
  on_networks net_of ups sched ->
  on_networks net_of ups' (map (rename f) sched).
Proof.
  intros Hf. unfold on_networks. induction 1 as [|a sched Ha _ IH]; cbn.
  - constructor.
  - constructor; [|exact IH].
    destruct a as [i N|i|i| | | |e]; cbn; try done.
    destruct Ha as (u & Hu & ->). exists u. by rewrite <- Hf.
Qed.

Lemma Exchange_on_reordered net_of c ctx r ups ups' v ret :
  ups ≡ₚ ups' ->
  Exchange_on net_of c ctx r ups v ret ->
  Exchange_on net_of c ctx r ups' v ret.
Proof.
  intros Hperm (sched & s & Hrun & Hret & Hnet).
  apply Permutation_inj in Hperm as (Hlen & f & Hf & Hlook).
  destruct (similar_run f sched _ _ s Hf
              (similar_start c ctx r ups ups' v f Hlen Hlook) Hrun)
    as (s' & Hrun' & Hs).
  exists (map (rename f) sched), s'. split; [done|]. split.
  - by rewrite <- (sim_returned _ _ _ Hs).
  - by apply (on_networks_rename net_of ups).
Qed.

(** The goroutine at position [i] calls its adapter, sends, and the
    receive loop takes what it sent. *)
Lemma attempt_received c ctx r ups v i u N res ls :
  ups !! i = Some u ->
  run_adapter c N ctx r (select_adapter u v) = (res, ls) ->
  exists s,
    run [A_query i N; A_send i; A_recv] (start c ctx r ups v) = Some s /\
    returned s =
      if is_success res then Some (msg res, None) else None.
Proof.
  intros Hi Hr.
  pose proof (lookup_lt_Some _ _ _ Hi) as Hlt.
  assert ((length ups =? 0)%nat = false) as Hne by (apply Nat.eqb_neq; lia).
  assert ((0 <? length ups)%nat = true) as Hcap by (apply Nat.ltb_lt; lia).
  unfold start. rewrite Hne. cbn [run exec]. unfold do_query.
  cbn [goroutines client parent req tlsVerify].
  change (map G_start ups) with (G_start <$> ups).
  rewrite list_lookup_fmap, Hi. cbn [fmap option_fmap option_map].
  rewrite Hr. unfold do_send.
  cbn [goroutines resultChan upstreams closed length].
  rewrite list_lookup_insert_eq by (by rewrite length_fmap).
  rewrite Hcap. cbn [negb andb]. unfold do_recv.
  cbn [returned resultChan app].
  destruct (is_success res); eexists; (split; [reflexivity|reflexivity]).
Qed.

(** X15: no position of the upstream list has priority.  Let each
    upstream answer in a way of its own, the same wherever it is listed.
    Then the attempt for any upstream that succeeds can be the one whose
    message the call returns, also when the upstreams listed before it
    would succeed as well; and the values the call may return are the
    same for every order of the list. *)
Theorem Exchange_gives_no_position_priority (net_of : string -> Net)
    (c : Client) (ctx : Context) (r : dns.Msg) (ups : list string)
    (v : bool) :
  (forall i u m,
     ups !! i = Some u ->
     fst (run_adapter c (net_of u) ctx r (select_adapter u v)) =
       {| msg := Some m; err := None |} ->
     Exchange_on net_of c ctx r ups v (Some m, None)) /\
  (forall ups' ret,
     ups ≡ₚ ups' ->
     Exchange_on net_of c ctx r ups v ret <->
     Exchange_on net_of c ctx r ups' v ret).
Proof.
  split.
  - intros i u m Hi Hres.
    destruct (run_adapter c (net_of u) ctx r (select_adapter u v))
      as [res ls] eqn:Hr.
    cbn [fst] in Hres. subst res.
    destruct (attempt_received c ctx r ups v i u (net_of u) _ ls Hi Hr)
      as (s & Hrun & Hret).
    exists [A_query i (net_of u); A_send i; A_recv], s.
    split; [done|]. split; [done|].
    repeat constructor. by exists u.
  - intros ups' ret Hperm.
    split; apply Exchange_on_reordered; [done|by symmetry].
Qed.

End Reordering.

(** Both resolvers of the list answer; the call may return the answer
    of the second. *)
Lemma Exchange_gives_no_position_priority_witness :
  reorder.Exchange_on sample.both_answer upstream.NewClient
    upstream.Background (sample.query 1 "example.")
    ["1.0.0.1"; "8.8.8.8"] true
    (Some (sample.answer_to (sample.query 1 "example.") 9 "b"), None) /\
  reorder.Exchange_on sample.both_answer upstream.NewClient
    upstream.Background (sample.query 1 "example.")
    ["8.8.8.8"; "1.0.0.1"] true
    (Some (sample.answer_to (sample.query 1 "example.") 7 "a"), None).
Proof.
  split.
  - apply (proj1 (Exchange_gives_no_position_priority sample.both_answer
                    upstream.NewClient upstream.Background
                    (sample.query 1 "example.") ["1.0.0.1"; "8.8.8.8"] true)
                 1%nat "8.8.8.8"); reflexivity.
  - apply (proj1 (proj2 (Exchange_gives_no_position_priority
                           sample.both_answer upstream.NewClient
                           upstream.Background (sample.query 1 "example.")
                           ["1.0.0.1"; "8.8.8.8"] true)
                        ["8.8.8.8"; "1.0.0.1"] _ (perm_swap _ _ _))).
    exists [upstream.A_query 0 (sample.answering 7 "a" 200);
            upstream.A_send 0; upstream.A_recv].
    eexists. split; [vm_compute; reflexivity|]. split; [reflexivity|].
    repeat constructor. by exists "1.0.0.1".
Defined.

(** ** The addresses a call hands to the libraries *)

Section Destinations.

Import upstream destinations.

Lemma adapter_calls_allowed c N p q ups v u l :
  u ∈ ups ->
  l ∈ snd (run_adapter c N p q (select_adapter u v)) ->
  allowed c ups v (until_deadline p) l.
Proof.
  intros Hu. unfold select_adapter.
  destruct (strings.HasPrefix u "https://" || strings.HasPrefix u "http://")
    eqn:Hurl; cbn [run_adapter].
  - unfold queryDoH.
    repeat case_match; cbn [snd app];
      rewrite ?elem_of_cons, ?elem_of_nil; intros Hin;
      repeat (destruct Hin as [Hin|Hin]; try done); subst l; cbn; done.
  - unfold queryUDP. destruct (dns_ExchangeContext N _ q _) as [m e].
    cbn [snd]. rewrite list_elem_of_singleton. intros ->. cbn. split.
    + exists u. split; [done|]. split; [done|].
      unfold select_adapter. by rewrite Hurl.
    + by intros ->.
Qed.

Lemma destinations_exec c ups v dl a s s' :
  (client s = c /\ upstreams s = ups /\ tlsVerify s = v /\
   until_deadline (parent s) = dl /\
   (forall i u, goroutines s !! i = Some (G_start u) -> u ∈ ups) /\
   (forall l, l ∈ libcalls s -> allowed c ups v dl l)) ->
  exec a s = Some s' ->
  client s' = c /\ upstreams s' = ups /\ tlsVerify s' = v /\
  until_deadline (parent s') = dl /\
  (forall i u, goroutines s' !! i = Some (G_start u) -> u ∈ ups) /\
  (forall l, l ∈ libcalls s' -> allowed c ups v dl l).
Proof.
  intros (Hc & Hu & Hv & Hd & Hg & Hl) H.
  destruct a as [i N|i|i| | | |e]; cbn [exec] in H.
  - unfold do_query in H.
    destruct (goroutines s !! i) as [[u|?|]|] eqn:Hi; try done.
    destruct (run_adapter _ _ _ _ _) as [res ls] eqn:Hr. simplify_eq.
    cbn [client upstreams tlsVerify parent goroutines libcalls].
    repeat split; try done.
    + intros j w Hj. rewrite list_lookup_insert in Hj.
      case_decide; [done|]. by eapply Hg.
    + intros l Hin. rewrite elem_of_app in Hin.
      destruct Hin as [Hin|Hin]; [by apply Hl|].
      eapply (adapter_calls_allowed _ N (parent s) (req s)).
      * by eapply Hg.
      * by rewrite Hr.
  - unfold do_send in H.
    destruct (goroutines s !! i) as [[?|res|]|] eqn:Hi; try done.
    destruct (_ && _); [|done]. simplify_eq.
    cbn [client upstreams tlsVerify parent goroutines libcalls].
    repeat split; try done.
    intros j w Hj. rewrite list_lookup_insert in Hj.
    case_decide; [done|]. by eapply Hg.
  - unfold do_drop in H.
    destruct (goroutines s !! i) as [[?|res|]|] eqn:Hi; try done.
    destruct (ctx_done s); [|done]. simplify_eq.
    cbn [client upstreams tlsVerify parent goroutines libcalls].
    repeat split; try done.
    intros j w Hj. rewrite list_lookup_insert in Hj.
    case_decide; [done|]. by eapply Hg.
  - unfold do_close in H. destruct (_ && _); [|done]. by simplify_eq.
  - unfold do_recv in H. repeat case_match; by simplify_eq.
  - unfold do_done in H. repeat case_match; by simplify_eq.
  - unfold do_ctx_end in H. destruct (_ && _); [|done]. by simplify_eq.
Qed.

(** X16: what a call hands to the libraries names nothing but the
    caller's upstreams: every classic exchange made during a call is
    given the address selected for one of the caller's identifiers that
    is no URL, with the 5-second timeout when the caller's context has
    no deadline; every HTTP request handed to [client.Do] is a POST to
    one of the caller's identifiers that is a URL, through the client
    the flag selects.  This bounds the arguments of the library calls,
    not the peers [client.Do] then connects to: a client of [NewClient]
    takes its proxy from the environment and follows redirects by the
    default of [net/http]. *)
Theorem Exchange_addresses_only_upstreams (c : Client) (ctx : Context)
    (r : dns.Msg) (ups : list string) (v : bool)
    (sched : list Action) (s : State) (l : LibCall) :
  run sched (start c ctx r ups v) = Some s ->
  l ∈ libcalls s ->
  allowed c ups v (until_deadline ctx) l /\
  forall cl rq answered,
    l = L_Do cl rq answered -> c = NewClient ->
    Proxy cl = Some ProxyFromEnvironment /\ CheckRedirect cl = None.
Proof.
  intros Hrun Hin.
  assert (client s = c /\ upstreams s = ups /\ tlsVerify s = v /\
          until_deadline (parent s) = until_deadline ctx /\
          (forall i u, goroutines s !! i = Some (G_start u) -> u ∈ ups) /\
          (forall l, l ∈ libcalls s ->
                     allowed c ups v (until_deadline ctx) l))
    as (_ & _ & _ & _ & _ & Hl).
  { eapply (run_preserves _ (destinations_exec c ups v (until_deadline ctx)));
      [|exact Hrun].
    unfold start. destruct (length ups =? 0)%nat; cbn.
    - repeat split; try done. intros l0 H0. by apply elem_of_nil in H0.
    - repeat split; try done.
      + intros i u Hi. change (map G_start ups) with (G_start <$> ups) in Hi.
        rewrite list_lookup_fmap in Hi.
        destruct (ups !! i) as [w|] eqn:Hw; simplify_eq/=.
        by eapply list_elem_of_lookup_2.
      + intros l0 H0. by apply elem_of_nil in H0. }
  specialize (Hl _ Hin). split; [exact Hl|].
  intros cl rq answered -> ->. destruct Hl as (-> & _). by destruct v.
Qed.

Lemma Exchange_addresses_only_upstreams_witness :
  destinations.allowed NewClient ["1.0.0.1"; "https://dns.example/dns-query"]
    false None
    (L_Do (doh_client NewClient false)
          (doh_request "https://dns.example/dns-query" []) true) /\
  forall cl rq answered,
    L_Do (doh_client NewClient false)
         (doh_request "https://dns.example/dns-query" []) true =
    L_Do cl rq answered ->
    NewClient = NewClient ->
    Proxy cl = Some ProxyFromEnvironment /\ CheckRedirect cl = None.
Proof.
  apply (Exchange_addresses_only_upstreams NewClient Background
           (sample.query 1 "example.")
           ["1.0.0.1"; "https://dns.example/dns-query"] false
           [A_query 1 (sample.answering 7 "b" 200);
            A_query 0 (sample.refusing "i/o timeout")]
           {| client := NewClient; req := sample.query 1 "example.";
              upstreams := ["1.0.0.1"; "https://dns.example/dns-query"];
              tlsVerify := false; parent := Background; cancelled := false;
              goroutines :=
                [G_select (failed (Err_lib "i/o timeout"));
                 G_select {| msg := Some (sample.answer_to dns.new_Msg 7 "b");
                             err := None |}];
              closer := true; resultChan := []; closed := false;
              lastErr := None; returned := None;
              invoked :=
                [(1%nat, CallDoH "https://dns.example/dns-query" false,
                  {| msg := Some (sample.answer_to dns.new_Msg 7 "b");
                     err := None |});
                 (0%nat, CallUDP "1.0.0.1:53",
                  failed (Err_lib "i/o timeout"))];
              libcalls :=
                [L_Pack; L_NewRequest "POST" "https://dns.example/dns-query";
                 L_Do (doh_client NewClient false)
                      (doh_request "https://dns.example/dns-query" []) true;
                 L_ReadAll; L_Unpack; L_BodyClose;
                 L_ExchangeContext {| dns.Timeout := 5 |} "1.0.0.1:53"];
              sent := []; seen := []; dropped := [] |}).
  - vm_compute. reflexivity.
  - cbn [libcalls]. rewrite !elem_of_cons. tauto.
Defined.

End Destinations.

(** ** The routing of the server [main] builds *)

Section Wiring.

Context {IP : Type}.
Variable ParseIP : string -> option IP.
Variable IPString : IP -> string.
Variable SplitHostPort : string -> (string * string) + string.

Lemma last_declaring_fold key (ds : list config.Device.t) :
  foldl (fun acc d =>
           if device.declares ParseIP IPString key d
           then Some (device.dev_of d) else acc) None ds =
  device.dev_of <$>
    List.find (device.declares ParseIP IPString key) (rev ds).
Proof.
  induction ds as [|d ds IH] using rev_ind; [done|].
  rewrite foldl_app, rev_app_distr. cbn.
  destruct (device.declares ParseIP IPString key d); [done|exact IH].
Qed.

(** X17: the server [main] builds forwards a query whose remote address
    splits into host and port to the upstreams of the last configured
    device that declares the host's address, with TLS verification as
    that device sets it and on by default; and to the global upstreams
    with verification on when the host is no IP address or no device
    declares it. *)
Theorem main_routes_by_configuration (cfg : config.Config)
    (remoteAddr host port : string) :
  SplitHostPort remoteAddr = inl (host, port) ->
  server.route ParseIP IPString SplitHostPort
    (wiring.main_server ParseIP IPString cfg) remoteAddr =
  Some
    match ParseIP host with
    | None => (config.Upstreams cfg, true)
    | Some ip =>
      match List.find (device.declares ParseIP IPString (IPString ip))
                      (rev (config.Devices cfg)) with
      | Some d =>
        (config.Device.Upstreams d,
         match config.Device.TLSVerify d with
         | Some b => b
         | None => true
         end)
      | None => (config.Upstreams cfg, true)
      end
    end.
Proof.
  intros Hsplit. unfold server.route, wiring.main_server, wiring.NewServer.
  cbn [server.devManager server.cfg]. rewrite Hsplit.
  destruct (ParseIP host) as [ip|]; [|done].
  unfold device.Get, device.NewManager. cbn [device.ipMap].
  rewrite add_devices_lookup_fold, lookup_empty, last_declaring_fold.
  by destruct (List.find _ _).
Qed.

End Wiring.

Lemma main_routes_by_configuration_witness :
  server.route sample.ParseIP sample.IPString sample.SplitHostPort
    (wiring.main_server sample.ParseIP sample.IPString sample.two_devices)
    "192.168.0.23:5353" =
  Some (["1.0.0.2"], false).
Proof.
  apply (main_routes_by_configuration sample.ParseIP sample.IPString
           sample.SplitHostPort sample.two_devices "192.168.0.23:5353"
           "192.168.0.23" "5353").
  reflexivity.
Defined.
